(** * TextCP: conversion of a Terraform plan into a resource graph

    Shallow embedding of the graph-building core of [src/ppt/tf_wrapper.py]:
    [setup_graph] (node builder), [tf_makegraph] (edge resolver and
    provider check), [add_vpc_implied_relations] (implied VPC/subnet
    relations), [_plandata_from_state] and [tf_from_offline].

    Conventions of the model:
    - a JSON value read by [json.load] is a [pyval];
    - a Python dict is an association list with insertion order, updated
      by [dict_set] (replace in place, otherwise append), as CPython does;
    - Python exceptions are values of [py_error], propagated by the
      [result] monad; [exit()] is [SystemExit 0] (no code given, so the
      interpreter exits with status 0) and [raise SystemExit(1)] is
      [SystemExit 1];
    - [Unmodelled] marks inputs for which the Python behaviour is outside
      this model (non-scalar addresses, IPv6 or netmask CIDR notation). *)

From Stdlib Require Import String Ascii List NArith ZArith Bool Lia.
Import ListNotations.
Open Scope string_scope.
Open Scope list_scope.
Set Warnings "-register-all".

(** ** Python values and exceptions *)

Inductive pyval : Type :=
| PNone
| PBool (b : bool)
| PInt (z : Z)
| PStr (s : string)
| PList (l : list pyval)
| PDict (d : list (string * pyval)).

Inductive py_error : Type :=
| TypeError
| KeyError
| AttributeError
| IndexError
| ValueNotInList (x : string)   (** [list.index(x)]: "'x' is not in list" *)
| SystemExit (code : Z)
| Unmodelled.

Inductive result (A : Type) : Type :=
| Ok (a : A)
| Err (e : py_error).
Arguments Ok {A} a.
Arguments Err {A} e.

Definition bind {A B} (m : result A) (f : A -> result B) : result B :=
  match m with
  | Ok a => f a
  | Err e => Err e
  end.

Notation "'let*' x ':=' m 'in' f" := (bind m (fun x => f))
  (at level 200, x name, m at level 100, f at level 200).

(** ** Strings *)

Definition eqs (a b : string) : bool := String.eqb a b.

Fixpoint mem (x : string) (l : list string) : bool :=
  match l with
  | [] => false
  | y :: l' => eqs x y || mem x l'
  end.

(** [s.startswith(p)] *)
Definition startswith (s p : string) : bool := String.prefix p s.

(** [sub in s] *)
Fixpoint contains (sub s : string) : bool :=
  String.prefix sub s ||
  match s with
  | EmptyString => false
  | String _ s' => contains sub s'
  end.

(** First occurrence of a non-empty separator: text before it and after it. *)
Fixpoint split_first (sep s : string) : option (string * string) :=
  if String.prefix sep s then
    Some (EmptyString,
          substring (String.length sep) (String.length s - String.length sep) s)
  else
    match s with
    | EmptyString => None
    | String c s' =>
        match split_first sep s' with
        | Some (a, b) => Some (String c a, b)
        | None => None
        end
    end.

(** [s.split(sep)[0]] *)
Definition split_head (sep s : string) : string :=
  match split_first sep s with
  | Some (a, _) => a
  | None => s
  end.

(** [s.split(sep)[1]] *)
Definition split_second (sep s : string) : result string :=
  match split_first sep s with
  | Some (_, rest) => Ok (split_head sep rest)
  | None => Err IndexError
  end.

(** [str(n)] for a natural number, in decimal. *)
Definition digit_char (d : N) : ascii := ascii_of_N (48 + d).

Fixpoint dec_aux (fuel : nat) (n : N) (acc : string) : string :=
  match fuel with
  | O => acc
  | S f =>
      let acc' := String (digit_char (N.modulo n 10)) acc in
      if N.ltb n 10 then acc' else dec_aux f (N.div n 10) acc'
  end.

Definition dec_of_N (n : N) : string :=
  match n with
  | N0 => "0"
  | Npos p => dec_aux (Pos.size_nat p) n EmptyString
  end.

(** [str(i)] for a Python int. *)
Definition py_str_int (z : Z) : string :=
  match z with
  | Zneg p => String "-" (dec_of_N (Npos p))
  | _ => dec_of_N (Z.to_N z)
  end.

(** [str(v)] for the scalar JSON values. *)
Definition py_str (v : pyval) : result string :=
  match v with
  | PNone => Ok "None"
  | PBool true => Ok "True"
  | PBool false => Ok "False"
  | PInt z => Ok (py_str_int z)
  | PStr s => Ok s
  | _ => Err Unmodelled
  end.

(** Python truthiness. *)
Definition truthy (v : pyval) : bool :=
  match v with
  | PNone => false
  | PBool b => b
  | PInt z => negb (Z.eqb z 0)
  | PStr s => negb (eqs s "")
  | PList l => match l with [] => false | _ => true end
  | PDict d => match d with [] => false | _ => true end
  end.

(** ** Insertion-ordered dicts *)

Definition dict (A : Type) := list (string * A).

Definition keys {A} (d : dict A) : list string := map fst d.

Fixpoint dict_get {A} (k : string) (d : dict A) : option A :=
  match d with
  | [] => None
  | (k', v) :: d' => if eqs k k' then Some v else dict_get k d'
  end.

(** [d[k] = v] *)
Fixpoint dict_set {A} (k : string) (v : A) (d : dict A) : dict A :=
  match d with
  | [] => [(k, v)]
  | (k', v') :: d' =>
      if eqs k k' then (k', v) :: d' else (k', v') :: dict_set k v d'
  end.

(** [d.update(e)] *)
Definition dict_update {A} (d e : dict A) : dict A :=
  fold_left (fun acc kv => dict_set (fst kv) (snd kv) acc) e d.

(** [d[k].append(x)]; a missing key raises [KeyError]. *)
Fixpoint dict_append {A} (k : string) (x : A) (d : dict (list A))
  : result (dict (list A)) :=
  match d with
  | [] => Err KeyError
  | (k', l) :: d' =>
      if eqs k k' then Ok ((k', l ++ [x]) :: d')
      else let* d'' := dict_append k x d' in Ok ((k', l) :: d'')
  end.

(** [list(dict.fromkeys(l))] *)
Definition fromkeys (l : list string) : list string :=
  keys (fold_left (fun d k => dict_set k PNone d) l []).

(** [l[i]] for [i >= 0]. *)
Definition nth_py {A} (l : list A) (i : nat) : result A :=
  match nth_error l i with
  | Some x => Ok x
  | None => Err IndexError
  end.

(** [l[i] = v] for [i >= 0]. *)
Fixpoint list_set {A} (i : nat) (v : A) (l : list A) : result (list A) :=
  match l, i with
  | [], _ => Err IndexError
  | _ :: l', O => Ok (v :: l')
  | x :: l', S i' => let* l'' := list_set i' v l' in Ok (x :: l'')
  end.

(** [l.index(x)] when [x in l]. *)
Fixpoint py_index (x : string) (l : list string) : option nat :=
  match l with
  | [] => None
  | y :: l' =>
      if eqs x y then Some O
      else match py_index x l' with Some i => Some (S i) | None => None end
  end.

(** ** Node builder: [setup_graph] *)

(** An entry of the plan's [resource_changes].  [rc_index] and
    [rc_module_address] are [None] when the record has no such key; the
    three [rc_after*] fields are [change.after], [change.after_unknown] and
    [change.after_sensitive] (a record without [change] violates the
    loader's precondition and is excluded by the type).  The fields [type],
    [name] and [change.actions] are not read by the code modelled here. *)
Record resource_change : Type := {
  rc_address : pyval;
  rc_mode : pyval;
  rc_index : option pyval;
  rc_module_address : option pyval;
  rc_after : pyval;
  rc_after_unknown : pyval;
  rc_after_sensitive : pyval
}.

(** [object["mode"] == "managed"] *)
Definition is_managed (r : resource_change) : bool :=
  match rc_mode r with
  | PStr m => eqs m "managed"
  | _ => false
  end.

(** Lines 357-364: the node key.  [isinstance(True, int)] holds in Python,
    so a boolean index takes the count branch. *)
Definition node_key (r : resource_change) : result string :=
  let* node := py_str (rc_address r) in
  match rc_index r with
  | None => Ok node
  | Some idx =>
      let* suffix :=
        match idx with
        | PInt i => Ok ("~" ++ py_str_int (i + 1)%Z)%string
        | PBool b => Ok ("~" ++ py_str_int ((if b then 1 else 0) + 1)%Z)%string
        | PStr k => Ok ("[" ++ k ++ "]")%string
        | _ => Err TypeError  (** [str + None], [str + list], ... *)
        end in
      Ok (node ++ suffix)%string
  end.

(** [details.update(v)] *)
Definition py_update (d : dict pyval) (v : pyval) : result (dict pyval) :=
  match v with
  | PDict e => Ok (dict_update d e)
  | PNone | PBool _ | PInt _ => Err TypeError
  | _ => Err Unmodelled
  end.

(** ["module." in object["address"]] *)
Definition address_has_module (a : pyval) : result bool :=
  match a with
  | PStr s => Ok (contains "module." s)
  | PNone | PBool _ | PInt _ => Err TypeError
  | _ => Err Unmodelled
  end.

(** [object["module_address"].split("module.")[1]] *)
Definition module_name (ma : option pyval) : result string :=
  match ma with
  | None => Err KeyError
  | Some (PStr s) => split_second "module." s
  | Some _ => Err AttributeError
  end.

(** Lines 368-373: the metadata of a node. *)
Definition node_details (r : resource_change) : result (dict pyval) :=
  let* details :=
    match rc_after r with
    | PDict d => Ok d
    | _ => Err AttributeError
    end in
  let* details := py_update details (rc_after_unknown r) in
  let* details := py_update details (rc_after_sensitive r) in
  let* m := address_has_module (rc_address r) in
  if m then
    let* modname := module_name (rc_module_address r) in
    Ok (dict_set "module" (PStr modname) details)
  else Ok details.

(** The part of [tfdata] the graph stages read and write; [all_output],
    [hidden] and [annotations] are only initialised to empty dicts. *)
Record graph_state : Type := {
  graphdict : dict (list string);
  meta_data : dict (dict pyval);
  node_list : list string
}.

Definition empty_state : graph_state :=
  {| graphdict := []; meta_data := []; node_list := [] |}.

(** One iteration of the loop of lines 353-374. *)
Definition builder_step (st : graph_state) (r : resource_change)
  : result graph_state :=
  if is_managed r then
    let* node := node_key r in
    let* details := node_details r in
    Ok {| graphdict := dict_set node [] (graphdict st);
          meta_data := dict_set node details (meta_data st);
          node_list := node_list st ++ [node] |}
  else Ok st.

Fixpoint builder_loop (rs : list resource_change) (st : graph_state)
  : result graph_state :=
  match rs with
  | [] => Ok st
  | r :: rs' => let* st' := builder_step st r in builder_loop rs' st'
  end.

Definition setup_graph (rs : list resource_change) : result graph_state :=
  let* st := builder_loop rs empty_state in
  Ok {| graphdict := graphdict st;
        meta_data := meta_data st;
        node_list := fromkeys (node_list st) |}.

(** ** Helpers of [modules.helpers] used by the resolver *)

(** Modelled from the spec: [helpers.remove_brackets_and_numbers] (not
    part of the sources) is the normalization pass that "removes
    bracket/number decorations"; here every [[<digits>]] group is deleted. *)
Definition is_digit (c : ascii) : bool :=
  let n := N_of_ascii c in (N.leb 48 n && N.leb n 57)%bool.

(** The rest of [s] after a non-empty run of digits closed by ["]"]. *)
Fixpoint after_digits_close (seen : bool) (s : string) : option string :=
  match s with
  | EmptyString => None
  | String c s' =>
      if is_digit c then after_digits_close true s'
      else if (Ascii.eqb c "]" && seen)%bool then Some s' else None
  end.

Fixpoint rbn_aux (fuel : nat) (s : string) : string :=
  match fuel with
  | O => s
  | S f =>
      match s with
      | EmptyString => EmptyString
      | String c s' =>
          if Ascii.eqb c "[" then
            match after_digits_close false s' with
            | Some rest => rbn_aux f rest
            | None => String c (rbn_aux f s')
            end
          else String c (rbn_aux f s')
      end
  end.

Definition remove_brackets_and_numbers (s : string) : string :=
  rbn_aux (String.length s) s.

(** Modelled from the spec: [helpers.get_no_module_name] (not part of the
    sources) drops the module qualification ["module.<name>."] of a
    module-qualified address, as often as it occurs at the front. *)
Fixpoint strip_modules (fuel : nat) (s : string) : string :=
  match fuel with
  | O => s
  | S f =>
      if String.prefix "module." s then
        match split_first "." (substring 7 (String.length s - 7) s) with
        | Some (_, rest) => strip_modules f rest
        | None => s
        end
      else s
  end.

Definition get_no_module_name (s : string) : string :=
  strip_modules (String.length s) s.

(** [helpers.list_of_dictkeys_containing] is not part of the sources; it is
    modelled after its name as the keys of a dict that contain a keyword
    (a substring test; the spec speaks of resource-type prefixes). *)
Definition list_of_dictkeys_containing {A} (d : dict A) (kw : string)
  : list string :=
  filter (fun k => contains kw k) (keys d).

(** ** Edge resolver: [tf_makegraph] *)

(** The [xdot_json] output of [terraform graph]: [objects] with [_gvid] and
    an optional [label], and [edges] (an absent key is [None]). *)
Record gv_object : Type := { gv_id : nat; gv_label : option pyval }.
Record gv_edge : Type := { e_head : nat; e_tail : nat }.
Record tfgraph : Type := {
  tg_objects : list gv_object;
  tg_edges : option (list gv_edge)
}.

(** Lines 383-387. *)
Fixpoint gvid_loop (objs : list gv_object) (table : list string)
  : result (list string) :=
  match objs with
  | [] => Ok table
  | o :: os =>
      let* lbl := py_str (match gv_label o with Some v => v | None => PNone end) in
      let* table' := list_set (gv_id o) lbl (table ++ [""]) in
      gvid_loop os table'
  end.

Definition build_gvid_table (objs : list gv_object) : result (list string) :=
  gvid_loop objs [].

(** Lines 390-395: the id of a node in the low-level graph. *)
Definition resolve_node_id (table : list string) (node : string) : result nat :=
  let nodename := split_head "~" node in
  match py_index nodename table with
  | Some i => Ok i
  | None =>
      let nodename := remove_brackets_and_numbers nodename in
      match py_index nodename table with
      | Some i => Ok i
      | None => Err (ValueNotInList nodename)
      end
  end.

Section Resolver.

(** [REVERSE_ARROW_LIST] ([cloud_config.AWS_REVERSE_ARROW_LIST]). *)
Variable reverse_arrow_list : list string.

(** Lines 398-433: one connection, for the node [node] with id [node_id].
    The state is the graphdict and the (rebindable) variable [node]. *)
Definition conn_step (table : list string) (node_id : nat)
  (gn : dict (list string) * string) (c : gv_edge)
  : result (dict (list string) * string) :=
  let g := fst gn in
  let node := snd gn in
  if Nat.eqb node_id (e_head c) then
    let* tl := nth_py table (e_tail c) in
    let matched_connections := filter (fun k => startswith k tl) (keys g) in
    if Nat.ltb 0 (length matched_connections) then
      let conn_type := split_head "." tl in
      let* hl := nth_py table (e_head c) in
      let matched_nodes := filter (fun k => startswith k hl) (keys g) in
      let node :=
        if (negb (mem node (keys g)) && Nat.eqb (length matched_nodes) 1)%bool
        then hd node matched_nodes else node in
      let conn :=
        if (negb (mem tl (keys g)) && Nat.eqb (length matched_connections) 1)%bool
        then hd tl matched_connections else tl in
      if mem conn_type reverse_arrow_list then
        let g := if mem conn (keys g) then g else dict_set conn [] g in
        let* g := dict_append conn node g in
        Ok (g, node)
      else
        let* g := dict_append node conn g in
        Ok (g, node)
    else Ok (g, node)
  else Ok (g, node).

Fixpoint edge_loop (table : list string) (node_id : nat) (edges : list gv_edge)
  (gn : dict (list string) * string) : result (dict (list string) * string) :=
  match edges with
  | [] => Ok gn
  | c :: cs => let* gn' := conn_step table node_id gn c in
               edge_loop table node_id cs gn'
  end.

(** Lines 389-433; [nodes] is the snapshot [dict(tfdata["graphdict"])]. *)
Fixpoint node_loop (table : list string) (edges : list gv_edge)
  (nodes : list string) (g : dict (list string)) : result (dict (list string)) :=
  match nodes with
  | [] => Ok g
  | node :: ns =>
      let* node_id := resolve_node_id table node in
      let* gn := edge_loop table node_id edges (g, node) in
      node_loop table edges ns (fst gn)
  end.

End Resolver.

(** ** IPv4 networks of [ipaddr] *)

(** [s.split(c)] for a one-character separator. *)
Fixpoint split_char (c : ascii) (s : string) : list string :=
  match s with
  | EmptyString => [EmptyString]
  | String d s' =>
      let rest := split_char c s' in
      if Ascii.eqb c d then EmptyString :: rest
      else match rest with
           | p :: ps => String d p :: ps
           | [] => [String d EmptyString]
           end
  end.

Fixpoint digits_value (s : string) (acc : Z) : option Z :=
  match s with
  | EmptyString => Some acc
  | String c s' =>
      if is_digit c then digits_value s' (acc * 10 + (Z.of_N (N_of_ascii c) - 48))%Z
      else None
  end.

(** [int(s)] for a non-empty string of decimal digits. *)
Definition parse_digits (s : string) : option Z :=
  match s with
  | EmptyString => None
  | _ => digits_value s 0
  end.

(** [_BaseV4._parse_octet]: digits only, at most 255, no leading zero. *)
Definition parse_octet (s : string) : option Z :=
  match parse_digits s with
  | Some v =>
      match s with
      | String "0" (String _ _) => None
      | _ => if Z.leb v 255 then Some v else None
      end
  | None => None
  end.

Definition parse_ipv4 (s : string) : option Z :=
  match split_char "." s with
  | [a; b; c; d] =>
      match parse_octet a, parse_octet b, parse_octet c, parse_octet d with
      | Some a, Some b, Some c, Some d =>
          Some (((a * 256 + b) * 256 + c) * 256 + d)%Z
      | _, _, _, _ => None
      end
  | _ => None
  end.

(** An [IPv4Network] built with [strict=False]: address and prefix length. *)
Record ipnet : Type := { net_ip : Z; net_prefixlen : Z }.

(** [ipaddr.IPNetwork(v)] on the dotted-quad notation with an optional
    [/prefixlen].  Other notations (IPv6, dotted netmasks, integers) are
    outside the model ([Unmodelled]). *)
Definition ip_network (v : pyval) : result ipnet :=
  match v with
  | PStr s =>
      match split_char "/" s with
      | [a] =>
          match parse_ipv4 a with
          | Some ip => Ok {| net_ip := ip; net_prefixlen := 32 |}
          | None => Err Unmodelled
          end
      | [a; p] =>
          match parse_ipv4 a, parse_digits p with
          | Some ip, Some len =>
              if Z.leb len 32 then Ok {| net_ip := ip; net_prefixlen := len |}
              else Err Unmodelled
          | _, _ => Err Unmodelled
          end
      | _ => Err Unmodelled
      end
  | _ => Err Unmodelled
  end.

Definition netmask (len : Z) : Z := Z.shiftl (Z.ones len) (32 - len)%Z.

Definition network (n : ipnet) : Z := Z.land (net_ip n) (netmask (net_prefixlen n)).

Definition broadcast (n : ipnet) : Z :=
  Z.lor (network n) (Z.ones (32 - net_prefixlen n)%Z).

(** [address in net] *)
Definition addr_in (a : Z) (n : ipnet) : bool :=
  (Z.leb (network n) a && Z.leb a (broadcast n))%bool.

(** [self.overlaps(other)] *)
Definition overlaps (self other : ipnet) : bool :=
  (addr_in (network self) other || addr_in (broadcast self) other ||
   (addr_in (network other) self || addr_in (broadcast other) self))%bool.

(** ** Implied relations: [add_vpc_implied_relations] *)

Definition is_vpc (k : string) : bool := startswith (get_no_module_name k) "aws_vpc.".
Definition is_subnet (k : string) : bool :=
  startswith (get_no_module_name k) "aws_subnet.".

(** [ipaddr.IPNetwork(tfdata["meta_data"][k]["cidr_block"])] *)
Definition cidr_of (meta : dict (dict pyval)) (k : string) : result ipnet :=
  match dict_get k meta with
  | None => Err KeyError
  | Some d =>
      match dict_get "cidr_block" d with
      | None => Err KeyError
      | Some v => ip_network v
      end
  end.

Fixpoint subnet_loop (meta : dict (dict pyval)) (vpc : string) (vpc_cidr : ipnet)
  (subnets : list string) (g : dict (list string)) : result (dict (list string)) :=
  match subnets with
  | [] => Ok g
  | s :: ss =>
      let* subnet_cidr := cidr_of meta s in
      let* g := if overlaps subnet_cidr vpc_cidr then dict_append vpc s g else Ok g in
      subnet_loop meta vpc vpc_cidr ss g
  end.

Fixpoint vpc_loop (meta : dict (dict pyval)) (subnets vpcs : list string)
  (g : dict (list string)) : result (dict (list string)) :=
  match vpcs with
  | [] => Ok g
  | v :: vs =>
      let* vpc_cidr := cidr_of meta v in
      let* g := subnet_loop meta v vpc_cidr subnets g in
      vpc_loop meta subnets vs g
  end.

(** Lines 451-471. *)
Definition add_vpc_implied_relations (meta : dict (dict pyval)) (g : dict (list string))
  : result (dict (list string)) :=
  let vpc_resources := filter is_vpc (keys g) in
  let subnet_resources := filter is_subnet (keys g) in
  if (Nat.ltb 0 (length vpc_resources) && Nat.ltb 0 (length subnet_resources))%bool
  then vpc_loop meta subnet_resources vpc_resources g
  else Ok g.

(** ** Provider check and the whole of [tf_makegraph] *)

(** Lines 438-446: [exit()] when no key contains ["aws_"]. *)
Definition validate_providers (g : dict (list string)) : result unit :=
  if Nat.eqb (length (list_of_dictkeys_containing g "aws_")) 0
  then Err (SystemExit 0) else Ok tt.

Definition edges_of (tg : tfgraph) : list gv_edge :=
  match tg_edges tg with Some l => l | None => [] end.

(** Lines 379-447 ([original_graphdict] and [original_metadata] are copies
    kept for later stages and are not modelled). *)
Definition tf_makegraph (reverse_arrow_list : list string)
  (rs : list resource_change) (tg : tfgraph) : result graph_state :=
  let* st := setup_graph rs in
  let* table := build_gvid_table (tg_objects tg) in
  let* g := node_loop reverse_arrow_list table (edges_of tg) (keys (graphdict st))
              (graphdict st) in
  let* g := add_vpc_implied_relations (meta_data st) g in
  let* _ := validate_providers g in
  Ok {| graphdict := g; meta_data := meta_data st; node_list := node_list st |}.

(** ** Offline path: [_plandata_from_state] and [tf_from_offline] *)

(** An instance of a state resource: [index_key] and [attributes], [None]
    when the key is absent. *)
Record state_instance : Type := {
  si_index_key : option pyval;
  si_attributes : option pyval
}.

(** A resource of the state JSON; [sr_instances] is [None] when the key is
    absent or not a list of instances ([null]). *)
Record state_resource : Type := {
  sr_mode : option pyval;
  sr_address : option pyval;
  sr_module : option pyval;
  sr_instances : option (list state_instance)
}.

Definition get_or_none (v : option pyval) : pyval :=
  match v with Some x => x | None => PNone end.

(** [("module." + r["module"]) if r.get("module") else None] *)
Definition state_module_address (r : state_resource) : result pyval :=
  match sr_module r with
  | Some m =>
      if truthy m then
        match m with
        | PStr s => Ok (PStr ("module." ++ s)%string)
        | _ => Err TypeError
        end
      else Ok PNone
  | None => Ok PNone
  end.

Definition state_change (r : state_resource) (mode module_address : pyval)
  (inst : state_instance) : resource_change :=
  {| rc_address := get_or_none (sr_address r);
     rc_mode := mode;
     rc_index := Some (get_or_none (si_index_key inst));
     rc_module_address := Some module_address;
     rc_after :=
       match si_attributes inst with
       | Some v => if truthy v then v else PDict []
       | None => PDict []
       end;
     rc_after_unknown := PDict [];
     rc_after_sensitive := PDict [] |}.

(** [r.get("instances") or [{}]] *)
Definition state_instances (r : state_resource) : list state_instance :=
  match sr_instances r with
  | Some ((_ :: _) as l) => l
  | _ => [{| si_index_key := None; si_attributes := None |}]
  end.

(** [r.get("mode", "managed")] *)
Definition state_mode (r : state_resource) : pyval :=
  match sr_mode r with Some m => m | None => PStr "managed" end.

(** Lines 42-64. *)
Fixpoint plandata_from_state (resources : list state_resource)
  : result (list resource_change) :=
  match resources with
  | [] => Ok []
  | r :: rs =>
      let mode := state_mode r in
      let* module_address := state_module_address r in
      let instances := state_instances r in
      let* rest := plandata_from_state rs in
      Ok (map (state_change r mode module_address) instances ++ rest)
  end.

(** The offline input as the loading steps leave it.  Reading the files
    and running [terraform show] are not modelled; their outcome is:
    - [OfflineNoFile]: neither [planfile] nor [statefile] is given
      (lines 67-69);
    - [OfflinePlanUnreadable]: [_load_json_maybe_plan] fails, because the
      file cannot be read or parsed, or is not JSON and [terraform show
      -json] fails (lines 28-34);
    - [OfflinePlan]: the loaded plan JSON, whose [resource_changes] key may
      be absent;
    - [OfflineStateUnreadable]: the state file cannot be read or is not
      valid JSON (lines 75-79);
    - [OfflineState]: the [resources] of the loaded state JSON ([[]] when
      the key is absent).
    A plan file takes precedence over a state file (line 71). *)
Inductive offline_input : Type :=
| OfflineNoFile
| OfflinePlanUnreadable
| OfflinePlan (resource_changes : option (list resource_change))
| OfflineStateUnreadable
| OfflineState (resources : list state_resource).

(** [make_tf_data]: [exit()] when [resource_changes] is empty. *)
Definition make_tf_data (rs : list resource_change) : result (list resource_change) :=
  match rs with
  | [] => Err (SystemExit 0)
  | _ => Ok rs
  end.

(** Lines 67-80: [plandata["resource_changes"]], after the exits of the
    loading steps ([raise SystemExit(1)] at lines 31, 34, 39, 69 and 79). *)
Definition offline_resource_changes (inp : offline_input)
  : result (list resource_change) :=
  match inp with
  | OfflineNoFile => Err (SystemExit 1)
  | OfflinePlanUnreadable => Err (SystemExit 1)
  | OfflinePlan None => Err (SystemExit 1)
  | OfflinePlan (Some rs) => Ok rs
  | OfflineStateUnreadable => Err (SystemExit 1)
  | OfflineState resources => plandata_from_state resources
  end.

(** Lines 66-91. *)
Definition tf_from_offline (inp : offline_input) : result graph_state :=
  let* rs := offline_resource_changes inp in
  let* rs := make_tf_data rs in
  setup_graph rs.

(** ** Comparison definitions *)

(** The node keys of a list in first-seen order, each once. *)
Fixpoint first_seen_aux (seen l : list string) : list string :=
  match l with
  | [] => []
  | x :: l' =>
      if mem x seen then first_seen_aux seen l'
      else x :: first_seen_aux (seen ++ [x]) l'
  end.

Definition first_seen (l : list string) : list string := first_seen_aux [] l.

(** A record the node builder accepts on its own. *)
Definition record_ok (r : resource_change) : Prop :=
  is_managed r = true ->
  (exists k, node_key r = Ok k) /\ (exists d, node_details r = Ok d).

Definition selects (meta : dict (dict pyval)) (vpc_cidr : ipnet) (s : string) : bool :=
  match cidr_of meta s with
  | Ok c => overlaps c vpc_cidr
  | Err _ => false
  end.

(** The subnets whose CIDR overlaps that of [vpc]. *)
Definition overlap_of (meta : dict (dict pyval)) (vpc s : string) : bool :=
  match cidr_of meta vpc with
  | Ok cv => selects meta cv s
  | Err _ => false
  end.

(** A graph endpoint that is a key of the node builder [K], or a raw label
    of the low-level graph (an entry of its label table [T]) that is a
    prefix of two distinct keys of [K]. *)
Definition endpoint_ok (K T : list string) (s : string) : Prop :=
  In s K \/
  In s T /\
  exists k1 k2, In k1 K /\ In k2 K /\ k1 <> k2 /\
    String.prefix s k1 = true /\ String.prefix s k2 = true.

(** Every key and every listed endpoint of [g] satisfies [P]. *)
Definition all_ok (P : string -> Prop) (g : dict (list string)) : Prop :=
  forall k es, In (k, es) g -> P k /\ Forall P es.

(** The invariant of the edge loop: the graphdict is well formed and the
    current [node] is one of its keys. *)
Definition loop_inv (P : string -> Prop) (g : dict (list string)) (node : string) : Prop :=
  all_ok P g /\ NoDup (keys g) /\ In node (keys g).

(** [str(item.get("label"))], the entry the label table gets for a
    low-level object. *)
Definition gv_label_str (o : gv_object) : result string :=
  py_str (match gv_label o with Some v => v | None => PNone end).

(** An edge whose head is the low-level node of one of [nodes]. *)
Definition head_is_node (table nodes : list string) (c : gv_edge) : bool :=
  existsb (fun k => match resolve_node_id table k with
                    | Ok i => Nat.eqb i (e_head c)
                    | Err _ => false
                    end) nodes.

(** ** Concrete inputs *)

Definition managed_change (addr : string) (idx : option pyval)
  (after : list (string * pyval)) : resource_change :=
  {| rc_address := PStr addr; rc_mode := PStr "managed"; rc_index := idx;
     rc_module_address := None; rc_after := PDict after;
     rc_after_unknown := PDict []; rc_after_sensitive := PDict [] |}.

Definition vpc_plan : list resource_change :=
  [managed_change "aws_vpc.main" None [("cidr_block", PStr "10.0.0.0/16")];
   managed_change "aws_subnet.a" None [("cidr_block", PStr "10.0.1.0/24")]].

Definition vpc_plan3 : list resource_change :=
  vpc_plan ++
  [managed_change "aws_subnet.b" None [("cidr_block", PStr "192.168.0.0/24")]].

(** Two counted instances of [aws_instance.web] and a load balancer that
    depends on the resource block (not on one instance). *)
Definition web_plan : list resource_change :=
  [managed_change "aws_instance.web" (Some (PInt 0)) [];
   managed_change "aws_instance.web" (Some (PInt 1)) [];
   managed_change "aws_lb.front" None []].

Definition web_graph : tfgraph :=
  {| tg_objects := [{| gv_id := 0; gv_label := Some (PStr "aws_lb.front") |};
                    {| gv_id := 1; gv_label := Some (PStr "aws_instance.web") |}];
     tg_edges := Some [{| e_head := 0; e_tail := 1 |}] |}.

Definition overlay_change : resource_change :=
  {| rc_address := PStr "aws_instance.x"; rc_mode := PStr "managed";
     rc_index := None; rc_module_address := None;
     rc_after := PDict [("a", PInt 1)];
     rc_after_unknown := PDict [("a", PInt 2); ("b", PInt 3)];
     rc_after_sensitive := PDict [("b", PInt 4)] |}.

Definition module_change : resource_change :=
  {| rc_address := PStr "module.net.aws_vpc.main"; rc_mode := PStr "managed";
     rc_index := None; rc_module_address := Some (PStr "module.net");
     rc_after := PDict [("cidr_block", PStr "10.0.0.0/16")];
     rc_after_unknown := PDict []; rc_after_sensitive := PDict [] |}.

(** A state resource without [index_key] on its only instance. *)
Definition plain_state_resource : state_resource :=
  {| sr_mode := Some (PStr "managed"); sr_address := Some (PStr "aws_vpc.main");
     sr_module := None;
     sr_instances := Some [{| si_index_key := None;
                              si_attributes := Some (PDict [("cidr_block", PStr "10.0.0.0/16")]) |}] |}.

(** A plan with a data source and a repeated instance. *)
Definition dup_plan : list resource_change :=
  [managed_change "aws_instance.web" (Some (PInt 0)) [];
   {| rc_address := PStr "data.aws_ami.ubuntu"; rc_mode := PStr "data";
      rc_index := None; rc_module_address := None; rc_after := PDict [];
      rc_after_unknown := PDict []; rc_after_sensitive := PDict [] |};
   managed_change "aws_instance.web" (Some (PInt 1)) [];
   managed_change "aws_instance.web" (Some (PInt 0)) []].

(** ** General lemmas *)

Lemma eqs_spec (a b : string) : reflect (a = b) (eqs a b).
Proof. unfold eqs. apply String.eqb_spec. Qed.

Lemma eqs_refl (a : string) : eqs a a = true.
Proof. destruct (eqs_spec a a); congruence. Qed.

Lemma mem_In (x : string) (l : list string) : mem x l = true <-> In x l.
Proof.
  induction l as [|y l IH]; simpl; [split; easy|].
  rewrite orb_true_iff, IH. destruct (eqs_spec x y); subst; intuition congruence.
Qed.

Lemma mem_false (x : string) (l : list string) : mem x l = false <-> ~ In x l.
Proof.
  rewrite <- mem_In. destruct (mem x l); split; congruence || easy.
Qed.

Lemma keys_dict_set {A} (k : string) (v : A) (d : dict A) :
  keys (dict_set k v d) = if mem k (keys d) then keys d else keys d ++ [k].
Proof.
  induction d as [|[k' v'] d IH]; simpl; [reflexivity|].
  destruct (eqs_spec k k') as [->|Hne]; simpl; [reflexivity|].
  rewrite IH. destruct (mem k (keys d)); reflexivity.
Qed.

Lemma dict_get_set {A} (x k : string) (v : A) (d : dict A) :
  dict_get x (dict_set k v d) = if eqs x k then Some v else dict_get x d.
Proof.
  induction d as [|[k' v'] d IH]; simpl.
  - reflexivity.
  - destruct (eqs_spec k k') as [->|Hne]; simpl.
    + destruct (eqs x k'); reflexivity.
    + rewrite IH. destruct (eqs_spec x k'), (eqs_spec x k); subst; congruence.
Qed.

Lemma dict_get_notin {A} (x : string) (d : dict A) :
  ~ In x (keys d) -> dict_get x d = None.
Proof.
  induction d as [|[k v] d IH]; simpl; intros H; [reflexivity|].
  destruct (eqs_spec x k); [subst; tauto|]. apply IH; tauto.
Qed.

Lemma dict_get_update {A} (x : string) (d e : dict A) :
  NoDup (keys e) ->
  dict_get x (dict_update d e) =
  match dict_get x e with Some v => Some v | None => dict_get x d end.
Proof.
  unfold dict_update. revert d.
  induction e as [|[k v] e IH]; intros d Hnd; simpl; [reflexivity|].
  inversion Hnd as [|? ? Hnin Hnd']; subst.
  rewrite IH by exact Hnd'.
  destruct (eqs_spec x k) as [->|Hne].
  - rewrite (dict_get_notin k e Hnin), dict_get_set, eqs_refl. reflexivity.
  - rewrite dict_get_set. destruct (eqs_spec x k); [congruence|].
    destruct (dict_get x e); reflexivity.
Qed.

Lemma keys_fold_set {A} (f : string -> A) (l : list string) (d : dict A) :
  keys (fold_left (fun d k => dict_set k (f k) d) l d) =
  keys d ++ first_seen_aux (keys d) l.
Proof.
  revert d. induction l as [|x l IH]; intros d; simpl.
  - rewrite app_nil_r. reflexivity.
  - rewrite IH, keys_dict_set. destruct (mem x (keys d)).
    + reflexivity.
    + rewrite <- app_assoc. reflexivity.
Qed.

Lemma fromkeys_first_seen (l : list string) : fromkeys l = first_seen l.
Proof.
  unfold fromkeys, first_seen.
  exact (keys_fold_set (fun _ => PNone) l []).
Qed.

Lemma first_seen_aux_nodup (seen l : list string) :
  NoDup seen -> NoDup (seen ++ first_seen_aux seen l).
Proof.
  revert seen. induction l as [|x l IH]; intros seen Hs; simpl.
  - rewrite app_nil_r. exact Hs.
  - destruct (mem x seen) eqn:Hm.
    + apply IH, Hs.
    + replace (seen ++ x :: first_seen_aux (seen ++ [x]) l)
        with ((seen ++ [x]) ++ first_seen_aux (seen ++ [x]) l)
        by (rewrite <- app_assoc; reflexivity).
      apply IH. apply NoDup_app; [exact Hs| constructor; [easy|constructor] |].
      intros y Hy [<-|[]]. apply mem_false in Hm. contradiction.
Qed.

Lemma first_seen_nodup (l : list string) : NoDup (first_seen l).
Proof.
  exact (first_seen_aux_nodup [] l (NoDup_nil _)).
Qed.

(** ** Node builder lemmas *)

Lemma builder_step_ok (st : graph_state) (r : resource_change) :
  (exists st', builder_step st r = Ok st') <-> record_ok r.
Proof.
  unfold builder_step, record_ok. destruct (is_managed r).
  - destruct (node_key r) as [k|e]; simpl.
    + destruct (node_details r) as [d|e]; simpl.
      * split; [intros _ _; eauto | intros _; eauto].
      * split; [intros [? H]; discriminate|].
        intros H. destruct (H eq_refl) as [_ [d Hd]]. discriminate.
    + split; [intros [? H]; discriminate|].
      intros H. destruct (H eq_refl) as [[k Hk] _]. discriminate.
  - split; [intros _ H; discriminate | intros _; eauto].
Qed.

Lemma builder_loop_ok (rs : list resource_change) (st : graph_state) :
  (exists st', builder_loop rs st = Ok st') <-> Forall record_ok rs.
Proof.
  revert st. induction rs as [|r rs IH]; intros st; simpl.
  - split; [constructor | eauto].
  - rewrite Forall_cons_iff, <- (builder_step_ok st r).
    destruct (builder_step st r) as [st1|e] eqn:Hs; simpl.
    + rewrite IH. split; [intros H; split; eauto | intros [_ H]; exact H].
    + split; [intros [? H]; discriminate | intros [[? H] _]; discriminate].
Qed.

Lemma builder_loop_app (rs1 rs2 : list resource_change) (st : graph_state) :
  builder_loop (rs1 ++ rs2) st =
  let* st' := builder_loop rs1 st in builder_loop rs2 st'.
Proof.
  revert st. induction rs1 as [|r rs1 IH]; intros st; simpl; [reflexivity|].
  destruct (builder_step st r); simpl; [apply IH | reflexivity].
Qed.

Lemma builder_loop_keys (rs : list resource_change) (st st' : graph_state) :
  builder_loop rs st = Ok st' ->
  exists ks,
    Forall2 (fun r k => node_key r = Ok k) (filter is_managed rs) ks /\
    keys (graphdict st') = keys (graphdict st) ++ first_seen_aux (keys (graphdict st)) ks /\
    node_list st' = node_list st ++ ks.
Proof.
  revert st. induction rs as [|r rs IH]; intros st H; simpl in H.
  - inversion H; subst. exists []. simpl. rewrite !app_nil_r. auto.
  - unfold builder_step in H. simpl. destruct (is_managed r) eqn:Hm.
    + destruct (node_key r) as [k|e] eqn:Hk; simpl in H; [|discriminate].
      destruct (node_details r) as [d|e]; simpl in H; [|discriminate].
      destruct (IH _ H) as [ks [Hf [Hkeys Hnl]]]. simpl in Hkeys, Hnl.
      exists (k :: ks). split; [constructor; assumption|]. split.
      * rewrite Hkeys, keys_dict_set. simpl.
        destruct (mem k (keys (graphdict st))); [reflexivity|].
        rewrite <- app_assoc. reflexivity.
      * rewrite Hnl, <- app_assoc. reflexivity.
    + exact (IH _ H).
Qed.

Lemma builder_loop_empty_edges (rs : list resource_change) (st st' : graph_state) :
  builder_loop rs st = Ok st' ->
  Forall (fun kv => snd kv = []) (graphdict st) ->
  Forall (fun kv => snd kv = []) (graphdict st').
Proof.
  revert st. induction rs as [|r rs IH]; intros st H Hst; simpl in H.
  - inversion H; subst; exact Hst.
  - unfold builder_step in H. destruct (is_managed r).
    + destruct (node_key r) as [k|e]; simpl in H; [|discriminate].
      destruct (node_details r) as [d|e]; simpl in H; [|discriminate].
      apply (IH _ H). simpl. clear -Hst.
      induction (graphdict st) as [|[k' v'] g IHg]; simpl.
      * repeat constructor.
      * inversion Hst; subst. destruct (eqs k k'); constructor; auto.
    + exact (IH _ H Hst).
Qed.

Lemma builder_loop_meta_other (post : list resource_change) (k : string)
  (st st' : graph_state) :
  builder_loop post st = Ok st' ->
  Forall (fun r' => is_managed r' = true -> node_key r' <> Ok k) post ->
  dict_get k (meta_data st') = dict_get k (meta_data st).
Proof.
  revert st. induction post as [|r post IH]; intros st H Hf; simpl in H.
  - inversion H; subst; reflexivity.
  - inversion Hf as [|? ? Hr Hf']; subst.
    unfold builder_step in H. destruct (is_managed r).
    + destruct (node_key r) as [k'|e] eqn:Hk; simpl in H; [|discriminate].
      destruct (node_details r) as [d|e]; simpl in H; [|discriminate].
      rewrite (IH _ H Hf'). simpl. rewrite dict_get_set.
      destruct (eqs_spec k k'); [subst; exfalso; exact (Hr eq_refl eq_refl)|reflexivity].
    + exact (IH _ H Hf').
Qed.

Lemma builder_loop_meta_last (pre post : list resource_change) (r : resource_change)
  (k : string) (st st' : graph_state) :
  builder_loop (pre ++ r :: post) st = Ok st' ->
  is_managed r = true -> node_key r = Ok k ->
  Forall (fun r' => is_managed r' = true -> node_key r' <> Ok k) post ->
  exists d, node_details r = Ok d /\ dict_get k (meta_data st') = Some d.
Proof.
  intros H Hm Hk Hf. rewrite builder_loop_app in H.
  destruct (builder_loop pre st) as [st1|e]; simpl in H; [|discriminate].
  unfold builder_step in H. rewrite Hm, Hk in H. simpl in H.
  destruct (node_details r) as [d|e]; simpl in H; [|discriminate].
  exists d. split; [reflexivity|].
  rewrite (builder_loop_meta_other post k _ _ H Hf). simpl.
  rewrite dict_get_set, eqs_refl. reflexivity.
Qed.

(** ** Decimal rendering of [str(int)] *)

Lemma digit_char_ok (d : N) :
  (d < 10)%N ->
  is_digit (digit_char d) = true /\
  (Z.of_N (N_of_ascii (digit_char d)) - 48 = Z.of_N d)%Z.
Proof.
  intros Hd. unfold is_digit, digit_char.
  rewrite N_ascii_embedding by lia.
  split; [apply andb_true_iff; split; apply N.leb_le; lia | lia].
Qed.

Lemma dec_aux_value (f : nat) (n : N) (acc : string) (v : Z) :
  (n < 10 ^ N.of_nat f)%N ->
  exists k, digits_value (dec_aux f n acc) v = digits_value acc (v * 10 ^ k + Z.of_N n)%Z
            /\ (0 <= k)%Z.
Proof.
  revert n acc v. induction f as [|f IH]; intros n acc v Hn; simpl.
  - exists 0%Z. simpl in Hn. replace n with 0%N by lia. split; [f_equal; lia | lia].
  - assert (Hmod : (n mod 10 < 10)%N) by (apply N.mod_lt; lia).
    destruct (digit_char_ok _ Hmod) as [Hdig Hval].
    assert (Hdm : Z.of_N n = (10 * Z.of_N (n / 10) + Z.of_N (n mod 10))%Z).
    { pose proof (N.div_mod' n 10) as E. apply (f_equal Z.of_N) in E.
      rewrite N2Z.inj_add, N2Z.inj_mul in E. exact E. }
    destruct (N.ltb_spec n 10) as [Hlt|Hge].
    + exists 1%Z. simpl. rewrite Hdig, Hval. rewrite N.mod_small by exact Hlt.
      split; [f_equal; lia | lia].
    + assert (Hdiv : (n / 10 < 10 ^ N.of_nat f)%N).
      { apply N.Div0.div_lt_upper_bound.
        rewrite Nat2N.inj_succ, N.pow_succ_r' in Hn. lia. }
      destruct (IH _ (String (digit_char (n mod 10)) acc) v Hdiv) as [k [Hk Hk0]].
      exists (k + 1)%Z. rewrite Hk. simpl. rewrite Hdig, Hval.
      split; [|lia]. f_equal. rewrite Z.pow_add_r by lia. lia.
Qed.

Lemma size_nat_bound (p : positive) : (Npos p < 10 ^ N.of_nat (Pos.size_nat p))%N.
Proof.
  induction p as [p IH|p IH|].
  - change (Npos p~1) with (2 * Npos p + 1)%N. simpl Pos.size_nat.
    rewrite Nat2N.inj_succ, N.pow_succ_r'. lia.
  - change (Npos p~0) with (2 * Npos p)%N. simpl Pos.size_nat.
    rewrite Nat2N.inj_succ, N.pow_succ_r'. lia.
  - simpl. lia.
Qed.

Lemma dec_aux_nonempty (f : nat) (n : N) (acc : string) :
  acc <> EmptyString -> dec_aux f n acc <> EmptyString.
Proof.
  revert n acc. induction f as [|f IH]; intros n acc H; simpl; [exact H|].
  destruct (N.ltb n 10); [discriminate | apply IH; discriminate].
Qed.

(** [str(z)] for [z >= 0] is a non-empty run of decimal digits denoting [z]. *)
Lemma py_str_int_digits (z : Z) : (0 <= z)%Z -> parse_digits (py_str_int z) = Some z.
Proof.
  intros Hz. destruct z as [|p|p]; [reflexivity| |lia].
  unfold py_str_int, dec_of_N, parse_digits. simpl Z.to_N.
  pose proof (size_nat_bound p) as Hb.
  destruct (dec_aux_value _ (Npos p) EmptyString 0 Hb) as [k [Hk _]].
  assert (Hne : dec_aux (Pos.size_nat p) (Npos p) EmptyString <> EmptyString).
  { assert (exists f, Pos.size_nat p = S f) as [f Hs] by (destruct p; simpl; eauto).
    rewrite Hs. simpl. destruct (N.ltb _ 10); [discriminate|].
    apply dec_aux_nonempty. discriminate. }
  destruct (dec_aux (Pos.size_nat p) (Npos p) EmptyString) eqn:Hd; [contradiction|].
  rewrite Hk. reflexivity.
Qed.

(** ** Node builder results *)

Lemma setup_graph_keys (rs : list resource_change) (st : graph_state) :
  setup_graph rs = Ok st ->
  exists ks,
    Forall2 (fun r k => node_key r = Ok k) (filter is_managed rs) ks /\
    node_list st = first_seen ks /\ keys (graphdict st) = node_list st.
Proof.
  unfold setup_graph. intros H.
  destruct (builder_loop rs empty_state) as [st1|e] eqn:Hl; simpl in H; [|discriminate].
  inversion H; subst; clear H. simpl.
  destruct (builder_loop_keys rs empty_state st1 Hl) as [ks [Hf [Hk Hn]]].
  simpl in Hk, Hn. exists ks. rewrite fromkeys_first_seen, Hn. auto.
Qed.

Lemma setup_graph_ok (rs : list resource_change) :
  (exists st, setup_graph rs = Ok st) <-> Forall record_ok rs.
Proof.
  rewrite <- (builder_loop_ok rs empty_state). unfold setup_graph.
  destruct (builder_loop rs empty_state) as [st1|e]; simpl.
  - split; eauto.
  - split; intros [? H]; discriminate.
Qed.

Lemma node_key_none_index (r : resource_change) (k : string) :
  rc_index r = Some PNone -> node_key r <> Ok k.
Proof.
  intros Hi. unfold node_key. rewrite Hi.
  destruct (py_str (rc_address r)); simpl; discriminate.
Qed.

Lemma plandata_from_state_in (resources : list state_resource)
  (rs : list resource_change) (sr : state_resource) :
  plandata_from_state resources = Ok rs -> In sr resources ->
  exists ma, state_module_address sr = Ok ma /\
    forall i, In i (state_instances sr) -> In (state_change sr (state_mode sr) ma i) rs.
Proof.
  revert rs. induction resources as [|r resources IH]; intros rs H Hin; [destruct Hin|].
  simpl in H. destruct (state_module_address r) as [ma|e] eqn:Hm; simpl in H; [|discriminate].
  destruct (plandata_from_state resources) as [rest|e]; simpl in H; [|discriminate].
  inversion H; subst; clear H. destruct Hin as [<-|Hin].
  - exists ma. split; [exact Hm|]. intros i Hi. apply in_or_app. left.
    apply in_map. exact Hi.
  - destruct (IH rest eq_refl Hin) as [ma' [Hm' Hi']]. exists ma'. split; [exact Hm'|].
    intros i Hi. apply in_or_app. right. apply Hi', Hi.
Qed.

(** C5: the node key of a resource change is its bare address without an
    index, the address followed by ["~"] and [str(i+1)] for an integer
    index [i] (for [i >= 0] these are the decimal digits of [i+1]), and the
    address followed by ["[k]"] for a string index [k]. *)
Theorem node_key_suffix (r : resource_change) (addr : string) :
  rc_address r = PStr addr ->
  (rc_index r = None -> node_key r = Ok addr) /\
  (forall i, rc_index r = Some (PInt i) ->
     node_key r = Ok (addr ++ "~" ++ py_str_int (i + 1))%string /\
     ((0 <= i)%Z -> parse_digits (py_str_int (i + 1)) = Some (i + 1)%Z)) /\
  (forall k, rc_index r = Some (PStr k) ->
     node_key r = Ok (addr ++ "[" ++ k ++ "]")%string).
Proof.
  intros Ha. unfold node_key. rewrite Ha. simpl. split; [|split].
  - intros ->. reflexivity.
  - intros i ->. simpl. split; [reflexivity|]. intros Hi. apply py_str_int_digits. lia.
  - intros k ->. reflexivity.
Qed.

Lemma node_key_suffix_witness :
  rc_address (managed_change "aws_instance.web" (Some (PInt 0)) []) = PStr "aws_instance.web" /\
  node_key (managed_change "aws_instance.web" (Some (PInt 0)) []) = Ok "aws_instance.web~1".
Proof.
  split; [reflexivity|].
  exact (proj1 (proj1 (proj2 (node_key_suffix
    (managed_change "aws_instance.web" (Some (PInt 0)) []) "aws_instance.web" eq_refl))
    0%Z eq_refl)).
Defined.

(** C6: a record whose ["index"] is present but [None] makes the key
    construction raise [TypeError] (for a scalar address), so [setup_graph]
    fails on every list holding such a managed record; [_plandata_from_state]
    gives [index = None] to every instance without [index_key], so the
    offline state path fails on every state with such an instance of a
    managed resource. *)
Theorem none_index_type_error :
  (forall r, rc_index r = Some PNone ->
     (exists a, py_str (rc_address r) = Ok a) -> node_key r = Err TypeError) /\
  (forall rs r, In r rs -> is_managed r = true -> rc_index r = Some PNone ->
     exists e, setup_graph rs = Err e) /\
  (forall resources sr i, In sr resources -> state_mode sr = PStr "managed" ->
     In i (state_instances sr) -> si_index_key i = None ->
     exists e, tf_from_offline (OfflineState resources) = Err e).
Proof.
  assert (Hsetup : forall rs r, In r rs -> is_managed r = true -> rc_index r = Some PNone ->
            exists e, setup_graph rs = Err e).
  { intros rs r Hin Hm Hi. destruct (setup_graph rs) as [st|e] eqn:Hs; [|eauto].
    assert (Hok : exists st, setup_graph rs = Ok st) by eauto.
    apply setup_graph_ok in Hok. rewrite Forall_forall in Hok.
    destruct (Hok r Hin Hm) as [[k Hk] _]. exfalso. exact (node_key_none_index r k Hi Hk). }
  split; [|split].
  - intros r Hi [a Ha]. unfold node_key. rewrite Ha, Hi. reflexivity.
  - exact Hsetup.
  - intros resources sr i Hin Hmode Hi Hidx. unfold tf_from_offline, offline_resource_changes.
    destruct (plandata_from_state resources) as [rs|e] eqn:Hp; simpl; [|eauto].
    destruct (plandata_from_state_in resources rs sr Hp Hin) as [ma [_ Hrs]].
    pose proof (Hrs i Hi) as Hrc.
    destruct rs as [|r0 rs']; [destruct Hrc|]. simpl.
    apply (Hsetup _ _ Hrc).
    + unfold is_managed. simpl. rewrite Hmode. reflexivity.
    + simpl. rewrite Hidx. reflexivity.
Qed.

Lemma none_index_type_error_witness :
  exists e, tf_from_offline (OfflineState [plain_state_resource]) = Err e.
Proof.
  apply (proj2 (proj2 none_index_type_error) [plain_state_resource] plain_state_resource
           {| si_index_key := None;
              si_attributes := Some (PDict [("cidr_block", PStr "10.0.0.0/16")]) |}).
  - exact (or_introl eq_refl).
  - reflexivity.
  - exact (or_introl eq_refl).
  - reflexivity.
Defined.

Example dup_plan_nodes :
  exists st, setup_graph dup_plan = Ok st /\
    node_list st = ["aws_instance.web~1"; "aws_instance.web~2"].
Proof. eexists. split; reflexivity. Qed.

(** C9: [setup_graph] succeeds exactly when every record is acceptable on
    its own (so repeated keys never make it fail), and then its node list
    is the keys of the managed records, in first-seen order, each once;
    they are pairwise distinct and are the keys of the graphdict. *)
Theorem setup_graph_nodes (rs : list resource_change) :
  ((exists st, setup_graph rs = Ok st) <-> Forall record_ok rs) /\
  (forall st, setup_graph rs = Ok st ->
     exists ks, Forall2 (fun r k => node_key r = Ok k) (filter is_managed rs) ks /\
       node_list st = first_seen ks /\ NoDup (node_list st) /\
       keys (graphdict st) = node_list st).
Proof.
  split; [apply setup_graph_ok|].
  intros st H. destruct (setup_graph_keys rs st H) as [ks [Hf [Hn Hk]]].
  exists ks. rewrite Hn in *. repeat split; auto. apply first_seen_nodup.
Qed.

Lemma setup_graph_nodes_witness :
  (exists st, setup_graph dup_plan = Ok st) /\ Forall record_ok dup_plan.
Proof.
  assert (H : exists st, setup_graph dup_plan = Ok st) by (eexists; reflexivity).
  split; [exact H|]. exact (proj1 (proj1 (setup_graph_nodes dup_plan)) H).
Defined.

Lemma node_details_overlay (r : resource_change) (d a u s : dict pyval) (addr : string) :
  node_details r = Ok d ->
  rc_after r = PDict a -> rc_after_unknown r = PDict u -> rc_after_sensitive r = PDict s ->
  NoDup (keys u) -> NoDup (keys s) -> rc_address r = PStr addr ->
  (forall x, (contains "module." addr = false \/ x <> "module") ->
     dict_get x d = match dict_get x s with
                    | Some v => Some v
                    | None => match dict_get x u with Some v => Some v | None => dict_get x a end
                    end) /\
  (contains "module." addr = true ->
     exists m, module_name (rc_module_address r) = Ok m /\ dict_get "module" d = Some (PStr m)).
Proof.
  intros H Ha Hu Hs Hnu Hns Haddr. unfold node_details in H.
  rewrite Ha, Hu, Hs, Haddr in H. simpl in H.
  assert (Hov : forall x, dict_get x (dict_update (dict_update a u) s) =
            match dict_get x s with
            | Some v => Some v
            | None => match dict_get x u with Some v => Some v | None => dict_get x a end
            end).
  { intros x. rewrite (dict_get_update x _ s Hns), (dict_get_update x a u Hnu). reflexivity. }
  destruct (contains "module." addr) eqn:Hc.
  - destruct (module_name (rc_module_address r)) as [m|e]; simpl in H; [|discriminate].
    inversion H; subst; clear H. split.
    + intros x [Hf|Hx]; [discriminate|]. rewrite dict_get_set.
      destruct (eqs_spec x "module"); [contradiction|]. apply Hov.
    + intros _. exists m. split; [reflexivity|]. rewrite dict_get_set. reflexivity.
  - inversion H; subst; clear H. split; [intros x _; apply Hov | discriminate].
Qed.

(** C10 (amended): the metadata of a node is that of the last managed
    record with its key: [change.after] overlaid by [after_unknown] and
    then [after_sensitive] (later overlays win), with, when the address
    contains ["module."], the key ["module"] set to the module name; for
    [after={a:1}], [after_unknown={a:2,b:3}], [after_sensitive={b:4}] the
    merged attributes are [{a:2, b:4}]. *)
Theorem setup_graph_meta_overlay :
  (forall rs pre r post k st a u s addr,
     rs = pre ++ r :: post -> is_managed r = true -> node_key r = Ok k ->
     Forall (fun r' => is_managed r' = true -> node_key r' <> Ok k) post ->
     rc_after r = PDict a -> rc_after_unknown r = PDict u -> rc_after_sensitive r = PDict s ->
     NoDup (keys u) -> NoDup (keys s) -> rc_address r = PStr addr ->
     setup_graph rs = Ok st ->
     exists d, dict_get k (meta_data st) = Some d /\
       (forall x, (contains "module." addr = false \/ x <> "module") ->
          dict_get x d = match dict_get x s with
                         | Some v => Some v
                         | None => match dict_get x u with
                                   | Some v => Some v
                                   | None => dict_get x a
                                   end
                         end) /\
       (contains "module." addr = true ->
          exists m, module_name (rc_module_address r) = Ok m /\
                    dict_get "module" d = Some (PStr m))) /\
  node_details overlay_change = Ok [("a", PInt 2); ("b", PInt 4)].
Proof.
  split; [|reflexivity].
  intros rs pre r post k st a u s addr -> Hm Hk Hpost Ha Hu Hs Hnu Hns Haddr H.
  unfold setup_graph in H.
  destruct (builder_loop (pre ++ r :: post) empty_state) as [st1|e] eqn:Hl;
    simpl in H; [|discriminate].
  inversion H; subst; clear H. simpl.
  destruct (builder_loop_meta_last pre post r k _ _ Hl Hm Hk Hpost) as [d [Hd Hget]].
  exists d. split; [exact Hget|].
  exact (node_details_overlay r d a u s addr Hd Ha Hu Hs Hnu Hns Haddr).
Qed.

Lemma setup_graph_meta_overlay_witness :
  exists st d, setup_graph [overlay_change] = Ok st /\
    dict_get "aws_instance.x" (meta_data st) = Some d /\ dict_get "b" d = Some (PInt 4).
Proof.
  assert (Hs : exists st, setup_graph [overlay_change] = Ok st) by (eexists; reflexivity).
  destruct Hs as [st Hst].
  destruct (proj1 setup_graph_meta_overlay [overlay_change] [] overlay_change []
              "aws_instance.x" st [("a", PInt 1)] [("a", PInt 2); ("b", PInt 3)]
              [("b", PInt 4)] "aws_instance.x"
              eq_refl eq_refl eq_refl (Forall_nil _) eq_refl eq_refl eq_refl
              ltac:(repeat constructor; simpl; intuition discriminate)
              ltac:(repeat constructor; simpl; intuition discriminate)
              eq_refl Hst) as [d [Hd [Hx _]]].
  exists st, d. split; [exact Hst|]. split; [exact Hd|].
  rewrite (Hx "b" (or_introl eq_refl)). reflexivity.
Defined.

(** A module-qualified record: its metadata carries the extra key ["module"]. *)
Lemma meta_module_attribute :
  exists st, setup_graph [module_change] = Ok st /\
    dict_get "module.net.aws_vpc.main" (meta_data st) =
      Some [("cidr_block", PStr "10.0.0.0/16"); ("module", PStr "net")] /\
    dict_update (dict_update [("cidr_block", PStr "10.0.0.0/16")] []) [] =
      [("cidr_block", PStr "10.0.0.0/16")].
Proof. eexists. split; [reflexivity|]. split; reflexivity. Qed.

(** ** Offline path *)

(** C3 (amended): [tf_from_offline] returns every managed node with an
    empty edge list; it runs neither the edge resolver nor
    [add_vpc_implied_relations]. *)
Theorem offline_nodes_without_edges (inp : offline_input) (st : graph_state) :
  tf_from_offline inp = Ok st ->
  Forall (fun kv => snd kv = []) (graphdict st) /\ keys (graphdict st) = node_list st.
Proof.
  unfold tf_from_offline. intros H.
  destruct (offline_resource_changes inp) as [rs|e]; simpl in H; [|discriminate].
  destruct (make_tf_data rs) as [rs'|e]; simpl in H; [|discriminate].
  destruct (setup_graph_keys rs' st H) as [ks [_ [_ Hk]]]. split; [|exact Hk].
  unfold setup_graph in H.
  destruct (builder_loop rs' empty_state) as [st1|e] eqn:Hl; simpl in H; [|discriminate].
  inversion H; subst; clear H. simpl.
  apply (builder_loop_empty_edges rs' empty_state st1 Hl). constructor.
Qed.

Lemma offline_nodes_without_edges_witness :
  exists st, tf_from_offline (OfflinePlan (Some vpc_plan)) = Ok st /\
    Forall (fun kv => snd kv = []) (graphdict st).
Proof.
  assert (Hs : exists st, tf_from_offline (OfflinePlan (Some vpc_plan)) = Ok st)
    by (eexists; reflexivity).
  destruct Hs as [st Hst]. exists st. split; [exact Hst|].
  exact (proj1 (offline_nodes_without_edges _ st Hst)).
Defined.

(** On the offline path a VPC and an overlapping subnet stay unconnected,
    although [add_vpc_implied_relations] would connect them. *)
Lemma offline_no_implied_relation :
  exists st, tf_from_offline (OfflinePlan (Some vpc_plan)) = Ok st /\
    graphdict st = [("aws_vpc.main", []); ("aws_subnet.a", [])] /\
    add_vpc_implied_relations (meta_data st) (graphdict st) =
      Ok [("aws_vpc.main", ["aws_subnet.a"]); ("aws_subnet.a", [])].
Proof. eexists. split; [reflexivity|]. split; reflexivity. Qed.

(** ** Implied relations lemmas *)

Lemma dict_get_in {A} (k : string) (d : dict A) (v : A) :
  dict_get k d = Some v -> In k (keys d).
Proof.
  induction d as [|[k' v'] d IH]; simpl; [discriminate|].
  destruct (eqs_spec k k'); [subst; auto|]. intros H. right. apply IH, H.
Qed.

Lemma dict_append_spec {A} (v : string) (x : A) (g g' : dict (list A)) :
  dict_append v x g = Ok g' ->
  keys g' = keys g /\
  forall k, dict_get k g' =
    if eqs k v then option_map (fun es => es ++ [x]) (dict_get k g) else dict_get k g.
Proof.
  revert g'. induction g as [|[k' l] g IH]; intros g' H; simpl in H; [discriminate|].
  destruct (eqs_spec v k') as [->|Hne].
  - inversion H; subst; clear H. split; [reflexivity|]. intros k. simpl.
    destruct (eqs_spec k k'); reflexivity.
  - destruct (dict_append v x g) as [g1|e]; simpl in H; [|discriminate].
    inversion H; subst; clear H. destruct (IH g1 eq_refl) as [Hk Hg].
    split; [simpl; rewrite Hk; reflexivity|]. intros k. simpl.
    destruct (eqs_spec k k') as [->|Hne'].
    + destruct (eqs_spec k' v); [congruence|reflexivity].
    + apply Hg.
Qed.

Lemma subnet_loop_spec (meta : dict (dict pyval)) (v : string) (cv : ipnet)
  (ss : list string) (g g' : dict (list string)) :
  subnet_loop meta v cv ss g = Ok g' ->
  keys g' = keys g /\
  forall k, dict_get k g' =
    if eqs k v then option_map (fun es => es ++ filter (selects meta cv) ss) (dict_get k g)
    else dict_get k g.
Proof.
  revert g. induction ss as [|s ss IH]; intros g H; simpl in H.
  - inversion H; subst. split; [reflexivity|]. intros k.
    destruct (eqs k v); [|reflexivity]. destruct (dict_get k g'); simpl;
      [rewrite app_nil_r|]; reflexivity.
  - destruct (cidr_of meta s) as [c|e] eqn:Hc; simpl in H; [|discriminate].
    destruct (overlaps c cv) eqn:Ho.
    + destruct (dict_append v s g) as [g1|e] eqn:Ha; simpl in H; [|discriminate].
      destruct (dict_append_spec v s g g1 Ha) as [Hk1 Hg1].
      destruct (IH g1 H) as [Hk Hg]. split; [congruence|]. intros k.
      rewrite Hg, Hg1. simpl. unfold selects at 2. rewrite Hc, Ho.
      destruct (eqs k v); [|reflexivity].
      destruct (dict_get k g); simpl; [rewrite <- app_assoc|]; reflexivity.
    + simpl in H. destruct (IH g H) as [Hk Hg]. split; [exact Hk|]. intros k.
      rewrite Hg. simpl. unfold selects at 2. rewrite Hc, Ho. reflexivity.
Qed.

Lemma vpc_loop_spec (meta : dict (dict pyval)) (ss vs : list string)
  (g g' : dict (list string)) :
  NoDup vs -> vpc_loop meta ss vs g = Ok g' ->
  keys g' = keys g /\
  forall k, dict_get k g' =
    if mem k vs then option_map (fun es => es ++ filter (overlap_of meta k) ss) (dict_get k g)
    else dict_get k g.
Proof.
  revert g. induction vs as [|v vs IH]; intros g Hnd H; simpl in H.
  - inversion H; subst. split; reflexivity.
  - inversion Hnd as [|? ? Hnin Hnd']; subst.
    destruct (cidr_of meta v) as [cv|e] eqn:Hc; simpl in H; [|discriminate].
    destruct (subnet_loop meta v cv ss g) as [g1|e] eqn:Hs; simpl in H; [|discriminate].
    destruct (subnet_loop_spec meta v cv ss g g1 Hs) as [Hk1 Hg1].
    destruct (IH g1 Hnd' H) as [Hk Hg]. split; [congruence|]. intros k.
    rewrite Hg, Hg1. simpl. destruct (eqs_spec k v) as [->|Hne].
    + apply mem_false in Hnin. rewrite Hnin. unfold overlap_of. rewrite Hc. reflexivity.
    + reflexivity.
Qed.

Lemma mem_filter_in (p : string -> bool) (k : string) (l : list string) :
  In k l -> mem k (filter p l) = p k.
Proof.
  intros Hin. destruct (p k) eqn:Hp.
  - apply mem_In, filter_In. auto.
  - apply mem_false. rewrite filter_In. intros [_ H]. congruence.
Qed.

(** C8: [add_vpc_implied_relations] keeps every key and every existing
    edge, and appends to each VPC node every subnet node whose CIDR
    overlaps the VPC's (whether or not they are already connected); for a
    VPC [10.0.0.0/16] and subnets [10.0.1.0/24] and [192.168.0.0/24] it
    adds an edge to the first only. *)
Theorem add_vpc_implied_relations_adds :
  (forall meta g g', NoDup (keys g) -> add_vpc_implied_relations meta g = Ok g' ->
     keys g' = keys g /\
     forall k es, dict_get k g = Some es ->
       dict_get k g' =
         Some (es ++ if is_vpc k then filter (overlap_of meta k) (filter is_subnet (keys g))
                     else [])) /\
  (exists st, setup_graph vpc_plan3 = Ok st /\
     add_vpc_implied_relations (meta_data st) (graphdict st) =
       Ok [("aws_vpc.main", ["aws_subnet.a"]); ("aws_subnet.a", []); ("aws_subnet.b", [])]).
Proof.
  split; [|eexists; split; reflexivity].
  intros meta g g' Hnd H. unfold add_vpc_implied_relations in H.
  destruct (Nat.ltb 0 (length (filter is_vpc (keys g))) &&
            Nat.ltb 0 (length (filter is_subnet (keys g))))%bool eqn:Hc.
  - destruct (vpc_loop_spec meta _ _ g g' (NoDup_filter _ Hnd) H) as [Hk Hg].
    split; [exact Hk|]. intros k es Hes. rewrite Hg, (mem_filter_in _ _ _ (dict_get_in _ _ _ Hes)), Hes.
    destruct (is_vpc k); simpl; [reflexivity|]. rewrite app_nil_r. reflexivity.
  - inversion H; subst; clear H. split; [reflexivity|]. intros k es Hes. rewrite Hes.
    destruct (is_vpc k) eqn:Hv; [|rewrite app_nil_r; reflexivity].
    assert (Hin : In k (filter is_vpc (keys g'))) by (apply filter_In; eauto using dict_get_in).
    destruct (filter is_vpc (keys g')) as [|x xs]; [destruct Hin|].
    destruct (filter is_subnet (keys g')); [|discriminate]. simpl. rewrite app_nil_r.
    reflexivity.
Qed.

Lemma add_vpc_implied_relations_adds_witness :
  exists st g', setup_graph vpc_plan3 = Ok st /\
    add_vpc_implied_relations (meta_data st) (graphdict st) = Ok g' /\
    dict_get "aws_vpc.main" g' =
      Some ([] ++ filter (overlap_of (meta_data st) "aws_vpc.main")
                   ["aws_subnet.a"; "aws_subnet.b"]).
Proof.
  assert (Hs : exists st, setup_graph vpc_plan3 = Ok st) by (eexists; reflexivity).
  destruct Hs as [st Hst].
  assert (Ha : exists g', add_vpc_implied_relations (meta_data st) (graphdict st) = Ok g')
    by (rewrite <- (f_equal (fun r => match r with Ok s => s | Err _ => st end) Hst);
        eexists; reflexivity).
  destruct Ha as [g' Hg'].
  assert (Hk : keys (graphdict st) = ["aws_vpc.main"; "aws_subnet.a"; "aws_subnet.b"]).
  { rewrite <- (f_equal (fun r => match r with Ok s => s | Err _ => st end) Hst).
    reflexivity. }
  assert (Hnd : NoDup (keys (graphdict st))) by (rewrite Hk; repeat constructor; simpl; intuition discriminate).
  assert (Hv : dict_get "aws_vpc.main" (graphdict st) = Some []).
  { rewrite <- (f_equal (fun r => match r with Ok s => s | Err _ => st end) Hst).
    reflexivity. }
  exists st, g'. split; [exact Hst|]. split; [exact Hg'|].
  rewrite (proj2 (proj1 add_vpc_implied_relations_adds _ _ _ Hnd Hg') _ _ Hv), Hk.
  reflexivity.
Defined.

(** ** Provider check *)

(** C4 (code bug): when no key of the final graphdict contains ["aws_"],
    the provider check prints ["ERROR: No AWS, Azure or Google resources
    will be created with current plan. Exiting."] and calls [exit()],
    which ends the process with status 0, where the spec requires a failure
    with a non-zero exit (the file's other error paths raise
    [SystemExit(1)]).  A plan whose only resource is a Google Cloud
    instance, a provider the message names, stops there. *)
Lemma google_only_plan_exits_zero :
  tf_makegraph [] [managed_change "google_compute_instance.vm" None []]
    {| tg_objects := [{| gv_id := 0; gv_label := Some (PStr "google_compute_instance.vm") |}];
       tg_edges := None |} = Err (SystemExit 0).
Proof. reflexivity. Qed.

(** ** Label resolution *)

Lemma node_loop_fails (reverse table : list string) (edges : list gv_edge)
  (nodes : list string) (g : dict (list string)) (k : string) (e : py_error) :
  In k nodes -> resolve_node_id table k = Err e ->
  exists e', node_loop reverse table edges nodes g = Err e'.
Proof.
  revert g. induction nodes as [|n ns IH]; intros g Hin He; [destruct Hin|].
  simpl. destruct Hin as [->|Hin].
  - rewrite He. simpl. eauto.
  - destruct (resolve_node_id table n) as [nid|e0]; simpl; [|eauto].
    destruct (edge_loop reverse table nid edges (g, n)) as [gn|e0]; simpl; [|eauto].
    apply IH; assumption.
Qed.

(** C7 (amended): when neither the base label of a node (its key up to the
    first ["~"]) nor its normalization is in the label table, the lookup
    raises [ValueError] from [list.index], naming the normalized label and
    not the node key, and [tf_makegraph] aborts with an error. *)
Theorem unresolved_label_aborts :
  (forall table node,
     py_index (split_head "~" node) table = None ->
     py_index (remove_brackets_and_numbers (split_head "~" node)) table = None ->
     resolve_node_id table node =
       Err (ValueNotInList (remove_brackets_and_numbers (split_head "~" node)))) /\
  (forall reverse rs tg st table k e,
     setup_graph rs = Ok st -> build_gvid_table (tg_objects tg) = Ok table ->
     In k (keys (graphdict st)) -> resolve_node_id table k = Err e ->
     exists e', tf_makegraph reverse rs tg = Err e').
Proof.
  split.
  - intros table node H1 H2. unfold resolve_node_id. rewrite H1, H2. reflexivity.
  - intros reverse rs tg st table k e Hs Ht Hin He. unfold tf_makegraph.
    rewrite Hs, Ht. simpl.
    destruct (node_loop_fails reverse table (edges_of tg) _ (graphdict st) k e Hin He)
      as [e' He'].
    rewrite He'. simpl. eauto.
Qed.

Lemma unresolved_label_aborts_witness :
  resolve_node_id ["aws_lb.front"] "aws_instance.web~1" =
    Err (ValueNotInList "aws_instance.web").
Proof.
  exact (proj1 unresolved_label_aborts ["aws_lb.front"] "aws_instance.web~1"
           eq_refl eq_refl).
Defined.

(** A node whose label is missing from the low-level graph: the error
    names the label ["aws_instance.web"], not the node key. *)
Lemma unresolved_label_message :
  tf_makegraph [] [managed_change "aws_instance.web" (Some (PInt 0)) []]
    {| tg_objects := [{| gv_id := 0; gv_label := Some (PStr "aws_lb.front") |}];
       tg_edges := None |} = Err (ValueNotInList "aws_instance.web") /\
  "aws_instance.web" <> "aws_instance.web~1".
Proof. split; [reflexivity | discriminate]. Qed.

(** ** Edge endpoints *)

Lemma prefix_trans (a b c : string) :
  String.prefix a b = true -> String.prefix b c = true -> String.prefix a c = true.
Proof.
  revert b c. induction a as [|x a IH]; intros b c H1 H2; [destruct c; reflexivity|].
  destruct b as [|y b]; [discriminate|]. destruct c as [|z c]; [discriminate|].
  simpl in *. destruct (ascii_dec x y) as [->|]; [|discriminate].
  destruct (ascii_dec y z) as [->|]; [|discriminate]. eauto.
Qed.

Lemma endpoint_ok_closed (K T : list string) (s m1 m2 : string) :
  In s T -> String.prefix s m1 = true -> String.prefix s m2 = true -> m1 <> m2 ->
  endpoint_ok K T m1 -> endpoint_ok K T m2 -> endpoint_ok K T s.
Proof.
  intros Ht H1 H2 Hne [Hk1|(_ & k1 & k2 & Ha & Hb & Hab & Hp1 & Hp2)] Hm2.
  - destruct Hm2 as [Hk2|(_ & k1 & k2 & Ha & Hb & Hab & Hp1 & Hp2)].
    + right. split; [exact Ht|]. exists m1, m2. auto.
    + right. split; [exact Ht|]. exists k1, k2. eauto 7 using prefix_trans.
  - right. split; [exact Ht|]. exists k1, k2. eauto 7 using prefix_trans.
Qed.

Lemma nth_py_in {A} (l : list A) (i : nat) (x : A) : nth_py l i = Ok x -> In x l.
Proof.
  unfold nth_py. destruct (nth_error l i) eqn:E; intros H; [|discriminate].
  injection H as <-. exact (nth_error_In l i E).
Qed.

Lemma in_keys (A : Type) (k : string) (d : dict A) :
  In k (keys d) -> exists v, In (k, v) d.
Proof.
  unfold keys. rewrite in_map_iff. intros [[k' v] [Hk Hin]]. simpl in Hk. subst. eauto.
Qed.

Lemma in_keys_of (A : Type) (k : string) (v : A) (d : dict A) :
  In (k, v) d -> In k (keys d).
Proof. intros H. unfold keys. apply in_map_iff. exists (k, v). auto. Qed.

Lemma filter_two (p : string -> bool) (l : list string) :
  NoDup l -> 2 <= length (filter p l) ->
  exists m1 m2, m1 <> m2 /\ In m1 l /\ p m1 = true /\ In m2 l /\ p m2 = true.
Proof.
  intros Hnd Hlen. pose proof (NoDup_filter p Hnd) as Hf.
  destruct (filter p l) as [|m1 [|m2 ms]] eqn:E; simpl in Hlen; [lia|lia|].
  assert (Hin : forall m, In m (filter p l) -> In m l /\ p m = true)
    by (intros m; rewrite filter_In; auto).
  rewrite E in Hin. inversion Hf as [|? ? Hn1 _]; subst.
  exists m1, m2. destruct (Hin m1) as [? ?]; [simpl; auto|].
  destruct (Hin m2) as [? ?]; [simpl; auto|].
  repeat split; auto. intros ->. apply Hn1. simpl. auto.
Qed.

Lemma hd_filter_one (p : string -> bool) (l : list string) (d : string) :
  length (filter p l) = 1 -> In (hd d (filter p l)) l.
Proof.
  intros H. destruct (filter p l) as [|m ms] eqn:E; [discriminate|].
  simpl. assert (In m (filter p l)) by (rewrite E; simpl; auto).
  apply filter_In in H0. tauto.
Qed.

Section Endpoints.

Variable P : string -> Prop.
Variable T : list string.
Hypothesis P_closed : forall s m1 m2, In s T ->
  String.prefix s m1 = true -> String.prefix s m2 = true -> m1 <> m2 ->
  P m1 -> P m2 -> P s.

Lemma all_ok_key (g : dict (list string)) (k : string) :
  all_ok P g -> In k (keys g) -> P k.
Proof. intros H Hk. destruct (in_keys _ k g Hk) as [es Hes]. exact (proj1 (H k es Hes)). Qed.

Lemma dict_append_all_ok (k x : string) (g g' : dict (list string)) :
  dict_append k x g = Ok g' -> all_ok P g -> P x -> all_ok P g'.
Proof.
  revert g'. induction g as [|[k' l] g IH]; intros g' H Hg Hx; simpl in H; [discriminate|].
  destruct (eqs k k').
  - inversion H; subst; clear H. intros k0 es [Heq|Hin].
    + inversion Heq; subst. destruct (Hg k0 l (or_introl eq_refl)) as [Hk Hl].
      split; [exact Hk|]. apply Forall_app. auto.
    + apply Hg. right. exact Hin.
  - destruct (dict_append k x g) as [g1|e] eqn:Ha; simpl in H; [|discriminate].
    inversion H; subst; clear H. intros k0 es [Heq|Hin].
    + apply Hg. left. exact Heq.
    + refine (IH g1 eq_refl _ Hx k0 es Hin). intros k1 es1 H1. apply Hg. right. exact H1.
Qed.

Lemma dict_set_all_ok (k : string) (v : list string) (g : dict (list string)) :
  all_ok P g -> P k -> Forall P v -> all_ok P (dict_set k v g).
Proof.
  induction g as [|[k' l] g IH]; intros Hg Hk Hv; simpl.
  - intros k0 es [Heq|[]]. inversion Heq; subst. auto.
  - destruct (eqs_spec k k') as [->|Hne].
    + intros k0 es [Heq|Hin].
      * inversion Heq; subst. auto.
      * apply Hg. right. exact Hin.
    + intros k0 es [Heq|Hin].
      * apply Hg. left. exact Heq.
      * refine (IH _ Hk Hv k0 es Hin). intros k1 es1 H1. apply Hg. right. exact H1.
Qed.

Lemma subnet_loop_all_ok (meta : dict (dict pyval)) (v : string) (cv : ipnet)
  (ss : list string) (g g' : dict (list string)) :
  subnet_loop meta v cv ss g = Ok g' -> all_ok P g -> Forall P ss -> all_ok P g'.
Proof.
  revert g. induction ss as [|s ss IH]; intros g H Hg Hss; simpl in H.
  - inversion H; subst; exact Hg.
  - inversion Hss; subst.
    destruct (cidr_of meta s) as [c|e]; simpl in H; [|discriminate].
    destruct (overlaps c cv).
    + destruct (dict_append v s g) as [g1|e] eqn:Ha; simpl in H; [|discriminate].
      exact (IH g1 H (dict_append_all_ok v s g g1 Ha Hg ltac:(assumption)) ltac:(assumption)).
    + exact (IH g H Hg ltac:(assumption)).
Qed.

Lemma vpc_loop_all_ok (meta : dict (dict pyval)) (ss vs : list string)
  (g g' : dict (list string)) :
  vpc_loop meta ss vs g = Ok g' -> all_ok P g -> Forall P ss -> all_ok P g'.
Proof.
  revert g. induction vs as [|v vs IH]; intros g H Hg Hss; simpl in H.
  - inversion H; subst; exact Hg.
  - destruct (cidr_of meta v) as [cv|e]; simpl in H; [|discriminate].
    destruct (subnet_loop meta v cv ss g) as [g1|e] eqn:Hs; simpl in H; [|discriminate].
    exact (IH g1 H (subnet_loop_all_ok meta v cv ss g g1 Hs Hg Hss) Hss).
Qed.

Lemma add_vpc_all_ok (meta : dict (dict pyval)) (g g' : dict (list string)) :
  add_vpc_implied_relations meta g = Ok g' -> all_ok P g -> all_ok P g'.
Proof.
  unfold add_vpc_implied_relations. intros H Hg.
  destruct (_ && _)%bool.
  - refine (vpc_loop_all_ok meta _ _ g g' H Hg _).
    apply Forall_forall. intros s Hs. apply filter_In in Hs.
    exact (all_ok_key g s Hg (proj1 Hs)).
  - inversion H; subst; exact Hg.
Qed.

Lemma conn_step_inv (reverse : list string) (node_id : nat)
  (g : dict (list string)) (node : string) (c : gv_edge)
  (g' : dict (list string)) (node' : string) :
  conn_step reverse T node_id (g, node) c = Ok (g', node') ->
  loop_inv P g node -> loop_inv P g' node' /\ incl (keys g) (keys g').
Proof.
  unfold conn_step. simpl. intros H [Hg [Hnd Hn]].
  destruct (Nat.eqb node_id (e_head c)); [|inversion H; subst; split; [split; auto|apply incl_refl]].
  destruct (nth_py T (e_tail c)) as [tl|e] eqn:Htl; simpl in H; [|discriminate].
  destruct (Nat.ltb 0 _) eqn:Hlt; [|inversion H; subst; split; [split; auto|apply incl_refl]].
  apply Nat.ltb_lt in Hlt.
  destruct (nth_py T (e_head c)) as [hl|e]; simpl in H; [|discriminate].
  set (mc := filter (fun k => startswith k tl) (keys g)) in *.
  set (mn := filter (fun k => startswith k hl) (keys g)) in *.
  set (nd := if (negb (mem node (keys g)) && Nat.eqb (length mn) 1)%bool
             then hd node mn else node) in *.
  set (conn := if (negb (mem tl (keys g)) && Nat.eqb (length mc) 1)%bool
               then hd tl mc else tl) in *.
  assert (Hnd' : In nd (keys g)).
  { unfold nd. destruct (negb (mem node (keys g)) && _)%bool eqn:E; [|exact Hn].
    apply andb_true_iff in E as [_ E]. apply Nat.eqb_eq in E. apply hd_filter_one, E. }
  assert (Hc : P conn).
  { unfold conn. destruct (negb (mem tl (keys g)) && _)%bool eqn:E.
    - apply andb_true_iff in E as [_ E]. apply Nat.eqb_eq in E.
      apply (all_ok_key g); [exact Hg|]. apply hd_filter_one, E.
    - destruct (mem tl (keys g)) eqn:Hm.
      + apply (all_ok_key g); [exact Hg|]. apply mem_In, Hm.
      + simpl in E. apply Nat.eqb_neq in E.
        assert (H2 : 2 <= length mc) by lia.
        destruct (filter_two (fun k => startswith k tl) (keys g) Hnd H2)
          as (m1 & m2 & Hne & Hi1 & Hp1 & Hi2 & Hp2).
        exact (P_closed tl m1 m2 (nth_py_in T _ tl Htl) Hp1 Hp2 Hne (all_ok_key g m1 Hg Hi1) (all_ok_key g m2 Hg Hi2)). }
  destruct (mem (split_head "." tl) reverse).
  - set (g1 := if mem conn (keys g) then g else dict_set conn [] g) in *.
    assert (Hk1 : keys g1 = if mem conn (keys g) then keys g else keys g ++ [conn]).
    { unfold g1. destruct (mem conn (keys g)) eqn:E; [reflexivity|].
      rewrite keys_dict_set, E. reflexivity. }
    assert (Hincl : incl (keys g) (keys g1)).
    { rewrite Hk1. destruct (mem conn (keys g)); [apply incl_refl|apply incl_appl, incl_refl]. }
    assert (Hg1 : all_ok P g1).
    { unfold g1. destruct (mem conn (keys g)); [exact Hg|]. apply dict_set_all_ok; auto. }
    assert (Hnd1 : NoDup (keys g1)).
    { rewrite Hk1. destruct (mem conn (keys g)) eqn:E; [exact Hnd|].
      apply NoDup_app; [exact Hnd|repeat constructor; auto|].
      intros x Hx [<-|[]]. apply mem_false in E. contradiction. }
    destruct (dict_append conn nd g1) as [g2|e] eqn:Ha; simpl in H; [|discriminate].
    injection H as <- <-.
    destruct (dict_append_spec conn nd g1 g2 Ha) as [Hk2 _].
    split; [|rewrite Hk2; exact Hincl].
    split; [exact (dict_append_all_ok conn nd g1 g2 Ha Hg1 (all_ok_key g nd Hg Hnd'))|].
    rewrite Hk2. split; [exact Hnd1|]. apply Hincl, Hnd'.
  - destruct (dict_append nd conn g) as [g2|e] eqn:Ha; simpl in H; [|discriminate].
    injection H as <- <-.
    destruct (dict_append_spec nd conn g g2 Ha) as [Hk2 _].
    rewrite Hk2. split; [|apply incl_refl].
    split; [exact (dict_append_all_ok nd conn g g2 Ha Hg Hc)|].
    rewrite Hk2. auto.
Qed.

Lemma edge_loop_inv (reverse : list string) (node_id : nat) (edges : list gv_edge)
  (g : dict (list string)) (node : string) (g' : dict (list string)) (node' : string) :
  edge_loop reverse T node_id edges (g, node) = Ok (g', node') ->
  loop_inv P g node -> loop_inv P g' node' /\ incl (keys g) (keys g').
Proof.
  revert g node. induction edges as [|c cs IH]; intros g node H Hi; simpl in H.
  - inversion H; subst. split; [exact Hi|apply incl_refl].
  - destruct (conn_step reverse T node_id (g, node) c) as [[g1 n1]|e] eqn:Hc;
      simpl in H; [|discriminate].
    destruct (conn_step_inv reverse node_id g node c g1 n1 Hc Hi) as [Hi1 Hs1].
    destruct (IH g1 n1 H Hi1) as [Hi2 Hs2]. split; [exact Hi2|].
    eapply incl_tran; eassumption.
Qed.

Lemma node_loop_inv (reverse : list string) (edges : list gv_edge)
  (nodes : list string) (g g' : dict (list string)) :
  node_loop reverse T edges nodes g = Ok g' ->
  all_ok P g -> NoDup (keys g) -> incl nodes (keys g) -> all_ok P g'.
Proof.
  revert g. induction nodes as [|n ns IH]; intros g H Hg Hnd Hin; simpl in H.
  - inversion H; subst; exact Hg.
  - destruct (resolve_node_id T n) as [nid|e]; simpl in H; [|discriminate].
    destruct (edge_loop reverse T nid edges (g, n)) as [[g1 n1]|e] eqn:He;
      simpl in H; [|discriminate].
    destruct (edge_loop_inv reverse nid edges g n g1 n1 He)
      as [[Hg1 [Hnd1 _]] Hs]; [split; [exact Hg|split; [exact Hnd|apply Hin; simpl; auto]]|].
    apply (IH g1 H Hg1 Hnd1). intros x Hx. apply Hs, Hin. simpl. auto.
Qed.

End Endpoints.

Lemma dict_get_pair {A} (k : string) (d : dict A) (v : A) :
  dict_get k d = Some v -> In (k, v) d.
Proof.
  induction d as [|[k' v'] d IH]; simpl; [discriminate|].
  destruct (eqs_spec k k') as [->|]; [intros H; inversion H; subst; auto|].
  intros H. right. apply IH, H.
Qed.

Lemma setup_graph_empty_edges (rs : list resource_change) (st : graph_state) :
  setup_graph rs = Ok st -> Forall (fun kv => snd kv = []) (graphdict st).
Proof.
  unfold setup_graph. destruct (builder_loop rs empty_state) as [st1|e] eqn:Hb;
    simpl; intros H; [|discriminate].
  inversion H; subst; clear H. simpl.
  exact (builder_loop_empty_edges rs empty_state st1 Hb (Forall_nil _)).
Qed.

Lemma setup_graph_nodup (rs : list resource_change) (st : graph_state) :
  setup_graph rs = Ok st -> NoDup (keys (graphdict st)).
Proof.
  intros H. destruct (setup_graph_keys rs st H) as (ks & _ & Hn & Hk).
  rewrite Hk, Hn. apply first_seen_nodup.
Qed.

(** C1 (amended): in every graph returned by [tf_makegraph], each key and
    each element of each adjacency list is either a key built by the node
    builder or a raw label of the low-level graph (an entry of its label
    table) that is a prefix of two distinct node-builder keys (the ambiguous tail labels that the resolver
    keeps as they are); no other endpoint is ever inserted. *)
Theorem edge_endpoints_known_or_ambiguous (reverse : list string)
  (rs : list resource_change) (tg : tfgraph) (st0 st : graph_state) (t : list string)
  (N : string) (es : list string) :
  setup_graph rs = Ok st0 -> build_gvid_table (tg_objects tg) = Ok t ->
  tf_makegraph reverse rs tg = Ok st ->
  dict_get N (graphdict st) = Some es ->
  endpoint_ok (keys (graphdict st0)) t N /\
  Forall (endpoint_ok (keys (graphdict st0)) t) es.
Proof.
  intros Hs Ht H HN. set (K := keys (graphdict st0)).
  assert (Hok0 : all_ok (endpoint_ok K t) (graphdict st0)).
  { intros k l Hin. split; [left; exact (in_keys_of _ k l _ Hin)|].
    pose proof (setup_graph_empty_edges rs st0 Hs) as He.
    rewrite Forall_forall in He. pose proof (He (k, l) Hin) as Hl. simpl in Hl. subst l. constructor. }
  unfold tf_makegraph in H. rewrite Hs in H. simpl in H. rewrite Ht in H. simpl in H.
  destruct (node_loop reverse t (edges_of tg) _ _) as [g1|e] eqn:Hn; simpl in H; [|discriminate].
  destruct (add_vpc_implied_relations _ g1) as [g2|e] eqn:Ha; simpl in H; [|discriminate].
  destruct (validate_providers g2); simpl in H; [|discriminate].
  inversion H; subst; clear H. simpl in HN.
  pose proof (node_loop_inv (endpoint_ok K t) t (endpoint_ok_closed K t) reverse (edges_of tg)
                _ _ _ Hn Hok0 (setup_graph_nodup rs st0 Hs) (incl_refl _)) as Hok1.
  pose proof (add_vpc_all_ok (endpoint_ok K t) _ _ _ Ha Hok1) as Hok2.
  exact (Hok2 N es (dict_get_pair N g2 es HN)).
Qed.

Lemma edge_endpoints_known_or_ambiguous_witness :
  exists st0 st,
    setup_graph web_plan = Ok st0 /\ tf_makegraph [] web_plan web_graph = Ok st /\
    dict_get "aws_lb.front" (graphdict st) = Some ["aws_instance.web"] /\
    Forall (endpoint_ok (keys (graphdict st0)) ["aws_lb.front"; "aws_instance.web"])
      ["aws_instance.web"].
Proof.
  eexists; eexists. split; [reflexivity|]. split; [reflexivity|]. split; [reflexivity|].
  exact (proj2 (edge_endpoints_known_or_ambiguous [] web_plan web_graph _ _
                  ["aws_lb.front"; "aws_instance.web"]
                  "aws_lb.front" ["aws_instance.web"] eq_refl eq_refl eq_refl eq_refl)).
Defined.

(** The load balancer depends on the resource block [aws_instance.web],
    which has two counted instances: the raw label ["aws_instance.web"],
    which is not a node-builder key, becomes an endpoint. *)
Lemma raw_label_endpoint :
  exists st0 st,
    setup_graph web_plan = Ok st0 /\ tf_makegraph [] web_plan web_graph = Ok st /\
    dict_get "aws_lb.front" (graphdict st) = Some ["aws_instance.web"] /\
    ~ In "aws_instance.web" (keys (graphdict st0)).
Proof.
  eexists; eexists. split; [reflexivity|]. split; [reflexivity|]. split; [reflexivity|].
  simpl. intros [H|[H|[H|[]]]]; discriminate.
Qed.

Lemma dict_set_new {A} (k : string) (v : A) (d : dict A) :
  ~ In k (keys d) -> dict_set k v d = d ++ [(k, v)].
Proof.
  induction d as [|[k' v'] d IH]; simpl; intros Hn; [reflexivity|].
  destruct (eqs_spec k k') as [->|]; [exfalso; auto|]. rewrite IH; auto.
Qed.

Lemma dict_append_last (k x : string) (l : list string) (d : dict (list string)) :
  ~ In k (keys d) -> dict_append k x (d ++ [(k, l)]) = Ok (d ++ [(k, l ++ [x])]).
Proof.
  induction d as [|[k' v'] d IH]; simpl; intros Hn.
  - rewrite eqs_refl. reflexivity.
  - destruct (eqs_spec k k') as [->|]; [exfalso; auto|]. rewrite IH; auto.
Qed.

(** C2 (amended): when the tail label [tl] of an edge of the current node
    is not a key and is a prefix of two or more keys, the resolver keeps
    the raw label as the endpoint and does not abort: for a connection type
    of [REVERSE_ARROW_LIST] it adds [tl] as a new key whose list is
    [[node]]; otherwise it appends [tl] to the list of [node]. *)
Theorem ambiguous_tail_kept_raw (reverse table : list string) (node_id : nat)
  (g : dict (list string)) (node tl hl : string) (c : gv_edge) :
  node_id = e_head c ->
  nth_error table (e_tail c) = Some tl -> nth_error table (e_head c) = Some hl ->
  In node (keys g) -> ~ In tl (keys g) ->
  2 <= length (filter (fun k => startswith k tl) (keys g)) ->
  if mem (split_head "." tl) reverse
  then conn_step reverse table node_id (g, node) c = Ok (g ++ [(tl, [node])], node)
  else exists g', conn_step reverse table node_id (g, node) c = Ok (g', node) /\
         keys g' = keys g /\
         forall k, dict_get k g' =
           if eqs k node then option_map (fun es => es ++ [tl]) (dict_get k g)
           else dict_get k g.
Proof.
  intros Hid Ht Hh Hn Htl Hlen. subst node_id. unfold conn_step. simpl.
  rewrite Nat.eqb_refl. unfold nth_py. rewrite Ht. simpl.
  set (mc := filter (fun k => startswith k tl) (keys g)) in *.
  rewrite (proj2 (Nat.ltb_lt 0 (length mc)) ltac:(lia)). rewrite Hh. simpl.
  rewrite (proj2 (mem_In node (keys g)) Hn), (proj2 (mem_false tl (keys g)) Htl). simpl.
  rewrite (proj2 (Nat.eqb_neq (length mc) 1) ltac:(lia)).
  destruct (mem (split_head "." tl) reverse).
  - rewrite dict_set_new by exact Htl.
    rewrite (proj2 (mem_false tl (keys g)) Htl), dict_append_last by exact Htl. reflexivity.
  - destruct (dict_append node tl g) as [g'|e] eqn:Ha.
    + destruct (dict_append_spec node tl g g' Ha) as [Hk Hg]. exists g'. auto.
    + exfalso. revert Ha. clear -Hn. induction g as [|[k' l] g IH]; simpl in *; [contradiction|].
      destruct (eqs_spec node k') as [->|Hne]; [discriminate|].
      destruct Hn as [->|Hn]; [contradiction|].
      destruct (dict_append node tl g); simpl; [discriminate|]. auto.
Qed.

Lemma ambiguous_tail_kept_raw_witness :
  conn_step ["aws_instance"] ["aws_lb.front"; "aws_instance.web"] 0
    ([("aws_instance.web~1", []); ("aws_instance.web~2", []); ("aws_lb.front", [])],
     "aws_lb.front") {| e_head := 0; e_tail := 1 |} =
  Ok ([("aws_instance.web~1", []); ("aws_instance.web~2", []); ("aws_lb.front", []);
       ("aws_instance.web", ["aws_lb.front"])], "aws_lb.front").
Proof.
  exact (ambiguous_tail_kept_raw ["aws_instance"] ["aws_lb.front"; "aws_instance.web"] 0
           [("aws_instance.web~1", []); ("aws_instance.web~2", []); ("aws_lb.front", [])]
           "aws_lb.front" "aws_instance.web" "aws_lb.front" {| e_head := 0; e_tail := 1 |}
           eq_refl eq_refl eq_refl
           ltac:(simpl; tauto)
           ltac:(simpl; intros [H|[H|[H|[]]]]; discriminate)
           ltac:(apply Nat.leb_le; reflexivity)).
Defined.

(** The ambiguous tail ["aws_instance.web"] (two counted instances) is not
    dropped: it is attached as a raw label, to the load balancer's list in
    the normal branch, and as a new key when its type is a reverse-arrow
    type. *)
Lemma ambiguous_edge_not_dropped :
  exists st1 st2,
    tf_makegraph [] web_plan web_graph = Ok st1 /\
    dict_get "aws_lb.front" (graphdict st1) = Some ["aws_instance.web"] /\
    tf_makegraph ["aws_instance"] web_plan web_graph = Ok st2 /\
    dict_get "aws_instance.web" (graphdict st2) = Some ["aws_lb.front"].
Proof.
  eexists; eexists. split; [reflexivity|]. split; [reflexivity|].
  split; reflexivity.
Qed.

(** ** IPv4 networks: ranges *)

Lemma digits_value_nonneg (s : string) (acc v : Z) :
  (0 <= acc)%Z -> digits_value s acc = Some v -> (0 <= v)%Z.
Proof.
  revert acc. induction s as [|c s IH]; intros acc Hacc H; simpl in H.
  - inversion H; subst; exact Hacc.
  - destruct (is_digit c) eqn:Hd; [|discriminate].
    unfold is_digit in Hd. apply andb_true_iff in Hd as [H1 _]. apply N.leb_le in H1.
    refine (IH _ _ H). lia.
Qed.

Lemma parse_digits_nonneg (s : string) (v : Z) : parse_digits s = Some v -> (0 <= v)%Z.
Proof.
  unfold parse_digits. destruct s; [discriminate|]. apply digits_value_nonneg. lia.
Qed.

Lemma parse_octet_range (s : string) (v : Z) : parse_octet s = Some v -> (0 <= v <= 255)%Z.
Proof.
  unfold parse_octet. destruct (parse_digits s) as [w|] eqn:Hp; [|discriminate].
  pose proof (parse_digits_nonneg s w Hp) as Hw.
  destruct s as [|c s]; [destruct (Z.leb_spec w 255); intros E'; inversion E'; lia|].
  destruct (Ascii.ascii_dec c "0") as [->|Hc].
  - destruct s; [|discriminate]. destruct (Z.leb_spec w 255); intros E'; inversion E'; lia.
  - assert (E : (match String c s with
                 | String "0" (String _ _) => None
                 | _ => if Z.leb w 255 then Some w else None
                 end) = if Z.leb w 255 then Some w else None).
    { destruct c as [b0 b1 b2 b3 b4 b5 b6 b7].
      destruct b0, b1, b2, b3, b4, b5, b6, b7; try reflexivity.
      exfalso. apply Hc. reflexivity. }
    rewrite E. destruct (Z.leb_spec w 255); intros E'; inversion E'; lia.
Qed.

Lemma parse_ipv4_range (s : string) (ip : Z) :
  parse_ipv4 s = Some ip -> (0 <= ip < 2 ^ 32)%Z.
Proof.
  unfold parse_ipv4. destruct (split_char "." s) as [|a [|b [|c [|d [|? ?]]]]];
    try discriminate.
  destruct (parse_octet a) as [va|] eqn:Ha; [|discriminate].
  destruct (parse_octet b) as [vb|] eqn:Hb; [|discriminate].
  destruct (parse_octet c) as [vc|] eqn:Hc; [|discriminate].
  destruct (parse_octet d) as [vd|] eqn:Hd; [|discriminate].
  intros H. inversion H; subst; clear H.
  apply parse_octet_range in Ha, Hb, Hc, Hd. lia.
Qed.

(** The networks [ip_network] accepts. *)
Lemma ip_network_valid (v : pyval) (n : ipnet) :
  ip_network v = Ok n ->
  (0 <= net_ip n < 2 ^ 32)%Z /\ (0 <= net_prefixlen n <= 32)%Z.
Proof.
  unfold ip_network. destruct v; try discriminate.
  destruct (split_char "/" s) as [|a [|p [|? ?]]]; try discriminate.
  - destruct (parse_ipv4 a) as [ip|] eqn:Hi; [|discriminate].
    intros H; inversion H; subst; clear H. simpl.
    pose proof (parse_ipv4_range a ip Hi). lia.
  - destruct (parse_ipv4 a) as [ip|] eqn:Hi; [|discriminate].
    destruct (parse_digits p) as [len|] eqn:Hl; [|discriminate].
    destruct (Z.leb_spec len 32) as [Hle|]; [|discriminate].
    intros H; inversion H; subst; clear H. simpl.
    pose proof (parse_ipv4_range a ip Hi). pose proof (parse_digits_nonneg p len Hl). lia.
Qed.

(** A valid network is the aligned block of [2 ^ (32 - prefixlen)]
    addresses that holds its address. *)
Lemma network_block (n : ipnet) :
  (0 <= net_ip n < 2 ^ 32)%Z -> (0 <= net_prefixlen n <= 32)%Z ->
  network n = (net_ip n / 2 ^ (32 - net_prefixlen n) * 2 ^ (32 - net_prefixlen n))%Z /\
  broadcast n = (network n + 2 ^ (32 - net_prefixlen n) - 1)%Z.
Proof.
  intros Hip Hp. set (h := (32 - net_prefixlen n)%Z).
  assert (Hh : (0 <= h <= 32)%Z) by (unfold h; lia).
  assert (Hnet : network n = (net_ip n / 2 ^ h * 2 ^ h)%Z).
  { unfold network, netmask. fold h.
    rewrite <- Z.shiftr_div_pow2, <- Z.shiftl_mul_pow2 by lia.
    apply Z.bits_inj'. intros i Hi.
    rewrite Z.land_spec.
    destruct (Z.lt_ge_cases i h) as [Hlo|Hhi].
    - rewrite !Z.shiftl_spec_low by lia. apply andb_false_r.
    - rewrite !Z.shiftl_spec_high by lia. rewrite Z.shiftr_spec by lia.
      replace (i - h + h)%Z with i by lia.
      destruct (Z.lt_ge_cases (i - h) (net_prefixlen n)) as [Hin|Hout].
      + rewrite Z.ones_spec_low by lia. apply andb_true_r.
      + rewrite Z.ones_spec_high by lia. rewrite andb_false_r.
        symmetry. destruct (Z.eq_dec (net_ip n) 0) as [->|Hnz]; [apply Z.bits_0|].
        apply Z.bits_above_log2; [lia|].
        assert (Z.log2 (net_ip n) < 32)%Z by (apply Z.log2_lt_pow2; lia). lia. }
  split; [exact Hnet|].
  unfold broadcast. fold h. rewrite Hnet.
  assert (Hpow : (0 < 2 ^ h)%Z) by (apply Z.pow_pos_nonneg; lia).
  assert (Hland : Z.land (net_ip n / 2 ^ h * 2 ^ h) (Z.ones h) = 0%Z).
  { rewrite Z.land_ones by lia. apply Z_mod_mult. }
  rewrite <- (Z.lxor_lor _ _ Hland), <- (Z.add_nocarry_lxor _ _ Hland).
  rewrite Z.ones_equiv. lia.
Qed.

Lemma block_div (q P x : Z) :
  (0 < P)%Z -> (q * P <= x <= q * P + P - 1)%Z -> (x / P = q)%Z.
Proof.
  intros HP Hx. symmetry. apply (Z.div_unique x P q (x - q * P)); [left; lia | lia].
Qed.

(** Two aligned blocks with a common address, the first no larger than
    the second: the second contains the first. *)
Lemma blocks_nested (q1 q2 P1 D x : Z) :
  (0 < P1)%Z -> (0 < D)%Z ->
  (q1 * P1 <= x <= q1 * P1 + P1 - 1)%Z ->
  (q2 * (P1 * D) <= x <= q2 * (P1 * D) + P1 * D - 1)%Z ->
  (q2 * (P1 * D) <= q1 * P1 /\ q1 * P1 + P1 <= q2 * (P1 * D) + P1 * D)%Z.
Proof.
  intros HP HD H1 H2.
  assert (E1 : (x / P1 = q1)%Z) by (apply block_div; lia).
  assert (E2 : (x / (P1 * D) = q2)%Z) by (apply block_div; nia).
  rewrite <- Z.div_div in E2 by lia. rewrite E1 in E2.
  pose proof (Z.div_mod q1 D ltac:(lia)) as Hq. rewrite E2 in Hq.
  pose proof (Z.mod_pos_bound q1 D HD) as Hr.
  set (r := (q1 mod D)%Z) in *. rewrite Hq. split; nia.
Qed.

Lemma net_bounds (n : ipnet) :
  (0 <= net_ip n < 2 ^ 32)%Z -> (0 <= net_prefixlen n <= 32)%Z ->
  (network n <= broadcast n)%Z.
Proof.
  intros H1 H2. destruct (network_block n H1 H2) as [_ Hb]. rewrite Hb.
  assert (0 < 2 ^ (32 - net_prefixlen n))%Z by (apply Z.pow_pos_nonneg; lia). lia.
Qed.

(** X1: two networks of [ipaddr.IPNetwork] overlap exactly when their
    address ranges share an address, and then one contains the other
    (CIDR blocks are nested or disjoint). *)
Theorem overlaps_nested (v1 v2 : pyval) (n1 n2 : ipnet) :
  ip_network v1 = Ok n1 -> ip_network v2 = Ok n2 ->
  (overlaps n1 n2 = true <-> exists x, addr_in x n1 = true /\ addr_in x n2 = true) /\
  (overlaps n1 n2 = true <->
     (network n2 <= network n1 /\ broadcast n1 <= broadcast n2)%Z \/
     (network n1 <= network n2 /\ broadcast n2 <= broadcast n1)%Z).
Proof.
  intros H1 H2.
  destruct (ip_network_valid v1 n1 H1) as [Hi1 Hp1].
  destruct (ip_network_valid v2 n2 H2) as [Hi2 Hp2].
  pose proof (net_bounds n1 Hi1 Hp1) as Hb1. pose proof (net_bounds n2 Hi2 Hp2) as Hb2.
  assert (Hshare : overlaps n1 n2 = true <->
            exists x, addr_in x n1 = true /\ addr_in x n2 = true).
  { unfold overlaps, addr_in. split.
    - intros H. repeat rewrite orb_true_iff in H. repeat rewrite andb_true_iff in H.
      repeat rewrite Z.leb_le in H.
      destruct H as [[[? ?]|[? ?]]|[[? ?]|[? ?]]];
        [exists (network n1)|exists (broadcast n1)|exists (network n2)|exists (broadcast n2)];
        rewrite !andb_true_iff, !Z.leb_le; lia.
    - intros [x [Hx1 Hx2]]. rewrite !andb_true_iff, !Z.leb_le in Hx1, Hx2.
      repeat rewrite orb_true_iff. repeat rewrite andb_true_iff. repeat rewrite Z.leb_le.
      destruct (Z.le_gt_cases (network n2) (network n1)); [left; left | right; left]; lia. }
  split; [exact Hshare|]. rewrite Hshare. split.
  - intros [x [Hx1 Hx2]]. unfold addr_in in Hx1, Hx2.
    rewrite andb_true_iff, !Z.leb_le in Hx1, Hx2.
    destruct (network_block n1 Hi1 Hp1) as [En1 Eb1].
    destruct (network_block n2 Hi2 Hp2) as [En2 Eb2].
    set (h1 := (32 - net_prefixlen n1)%Z) in *. set (h2 := (32 - net_prefixlen n2)%Z) in *.
    rewrite Eb1 in Hx1. rewrite Eb2 in Hx2. rewrite Eb1, Eb2.
    rewrite En1 in Hx1 |- *. rewrite En2 in Hx2 |- *.
    destruct (Z.le_gt_cases h1 h2) as [Hle|Hgt].
    + left. replace (2 ^ h2)%Z with (2 ^ h1 * 2 ^ (h2 - h1))%Z in *
        by (rewrite <- Z.pow_add_r by lia; f_equal; lia).
      pose proof (blocks_nested (net_ip n1 / 2 ^ h1) (net_ip n2 / (2 ^ h1 * 2 ^ (h2 - h1)))
                    (2 ^ h1) (2 ^ (h2 - h1)) x
                    ltac:(apply Z.pow_pos_nonneg; lia) ltac:(apply Z.pow_pos_nonneg; lia)
                    Hx1 Hx2). lia.
    + right. replace (2 ^ h1)%Z with (2 ^ h2 * 2 ^ (h1 - h2))%Z in *
        by (rewrite <- Z.pow_add_r by lia; f_equal; lia).
      pose proof (blocks_nested (net_ip n2 / 2 ^ h2) (net_ip n1 / (2 ^ h2 * 2 ^ (h1 - h2)))
                    (2 ^ h2) (2 ^ (h1 - h2)) x
                    ltac:(apply Z.pow_pos_nonneg; lia) ltac:(apply Z.pow_pos_nonneg; lia)
                    Hx2 Hx1). lia.
  - intros [[? ?]|[? ?]]; [exists (network n1)|exists (network n2)];
      unfold addr_in; rewrite !andb_true_iff, !Z.leb_le; lia.
Qed.

Lemma overlaps_nested_witness :
  ip_network (PStr "10.0.0.0/16") = Ok {| net_ip := 167772160; net_prefixlen := 16 |} /\
  ip_network (PStr "10.0.1.0/24") = Ok {| net_ip := 167772416; net_prefixlen := 24 |} /\
  overlaps {| net_ip := 167772416; net_prefixlen := 24 |}
           {| net_ip := 167772160; net_prefixlen := 16 |} = true /\
  (network {| net_ip := 167772160; net_prefixlen := 16 |} <=
     network {| net_ip := 167772416; net_prefixlen := 24 |})%Z.
Proof.
  split; [reflexivity|]. split; [reflexivity|]. split; [reflexivity|].
  destruct (proj1 (proj2 (overlaps_nested (PStr "10.0.1.0/24") (PStr "10.0.0.0/16") _ _
                            eq_refl eq_refl)) eq_refl) as [[H _]|[H _]];
    [exact H|vm_compute; discriminate].
Defined.

(** ** Label table of the low-level graph *)

Lemma list_set_ok {A} (i : nat) (v : A) (l : list A) :
  (exists l', list_set i v l = Ok l') <-> i < length l.
Proof.
  revert i. induction l as [|x l IH]; intros i; simpl.
  - split; [intros [? H]; destruct i; discriminate | lia].
  - destruct i as [|i]; [split; [lia | intros _; eexists; reflexivity]|].
    specialize (IH i). simpl.
    destruct (list_set i v l) as [l'|e]; simpl; split.
    + intros _. assert (i < length l) by (apply IH; eauto). lia.
    + intros _. eexists. reflexivity.
    + intros [? H]; discriminate.
    + intros Hi. apply IH. lia.
Qed.

Lemma list_set_length {A} (i : nat) (v : A) (l l' : list A) :
  list_set i v l = Ok l' -> length l' = length l.
Proof.
  revert i l'. induction l as [|x l IH]; intros i l' H; [destruct i; discriminate|].
  destruct i as [|i]; simpl in H; [inversion H; reflexivity|].
  destruct (list_set i v l) as [l1|e] eqn:E; simpl in H; [|discriminate].
  inversion H; subst. simpl. rewrite (IH i l1 E). reflexivity.
Qed.

Lemma list_set_last {A} (v d : A) (l : list A) :
  list_set (length l) v (l ++ [d]) = Ok (l ++ [v]).
Proof. induction l as [|x l IH]; simpl; [reflexivity|]. rewrite IH. reflexivity. Qed.

Lemma gvid_loop_ok (objs : list gv_object) (t : list string) :
  Forall (fun o => exists s, gv_label_str o = Ok s) objs ->
  ((exists t', gvid_loop objs t = Ok t') <->
   (forall i o, nth_error objs i = Some o -> gv_id o <= length t + i)).
Proof.
  revert t. induction objs as [|o os IH]; intros t Hl; simpl.
  - split; [intros _ i o H; destruct i; discriminate | eauto].
  - inversion Hl as [|? ? [s Hs] Hl']; subst. unfold gv_label_str in Hs. rewrite Hs. simpl.
    destruct (list_set (gv_id o) s (t ++ [""])) as [t1|e] eqn:Hset; simpl.
    + assert (Hlen : length t1 = S (length t)).
      { rewrite (list_set_length _ _ _ _ Hset), length_app. simpl. lia. }
      assert (Hlt : gv_id o < length (t ++ [""])) by (apply (proj1 (list_set_ok _ s _)); eauto).
      rewrite length_app in Hlt. simpl in Hlt.
      rewrite (IH t1 Hl'). rewrite Hlen. split.
      * intros H i o' Hi. destruct i as [|i]; simpl in Hi.
        -- inversion Hi; subst. lia.
        -- specialize (H i o' Hi). lia.
      * intros H i o' Hi. specialize (H (S i) o' Hi). lia.
    + split; [intros [? H]; discriminate|]. intros H. exfalso.
      specialize (H 0 o eq_refl).
      assert (Hx : gv_id o < length (t ++ [""])) by (rewrite length_app; simpl; lia).
      apply (proj2 (list_set_ok _ s _)) in Hx. destruct Hx as [? Hx]. congruence.
Qed.

Lemma gvid_loop_length (objs : list gv_object) (t t' : list string) :
  gvid_loop objs t = Ok t' -> length t' = length t + length objs.
Proof.
  revert t. induction objs as [|o os IH]; intros t H; simpl in H.
  - inversion H; subst. simpl. lia.
  - destruct (py_str _) as [s|e]; simpl in H; [|discriminate].
    destruct (list_set (gv_id o) s (t ++ [""])) as [t1|e] eqn:Hset; simpl in H; [|discriminate].
    rewrite (IH t1 H), (list_set_length _ _ _ _ Hset), length_app. simpl. lia.
Qed.

Lemma gvid_loop_in_order (objs : list gv_object) (labels t : list string) :
  Forall2 (fun o s => gv_label_str o = Ok s) objs labels ->
  (forall i o, nth_error objs i = Some o -> gv_id o = length t + i) ->
  gvid_loop objs t = Ok (t ++ labels).
Proof.
  intros H. revert t. induction H as [|o s os ss Hs Hrest IH]; intros t Hid; simpl.
  - rewrite app_nil_r. reflexivity.
  - unfold gv_label_str in Hs. rewrite Hs. simpl.
    rewrite (Hid 0 o eq_refl), Nat.add_0_r, list_set_last. simpl.
    rewrite (IH (t ++ [s])); [rewrite <- app_assoc; reflexivity|].
    intros i o' Hi. rewrite (Hid (S i) o' Hi), length_app. simpl. lia.
Qed.

(** X2: the label table of lines 383-387.  When every label is a scalar,
    building it succeeds exactly when the [i]-th object has [_gvid <= i]
    (otherwise [gvid_table[gvid] = ...] raises [IndexError]); the table has
    one entry per object; and when the objects come numbered [0, 1, ...]
    in order, as [dot -Txdot_json] writes them, entry [i] is
    [str(label)] of object [i]. *)
Theorem build_gvid_table_spec :
  (forall objs, Forall (fun o => exists s, gv_label_str o = Ok s) objs ->
     ((exists t, build_gvid_table objs = Ok t) <->
      (forall i o, nth_error objs i = Some o -> gv_id o <= i))) /\
  (forall objs t, build_gvid_table objs = Ok t -> length t = length objs) /\
  (forall objs labels, Forall2 (fun o s => gv_label_str o = Ok s) objs labels ->
     (forall i o, nth_error objs i = Some o -> gv_id o = i) ->
     build_gvid_table objs = Ok labels).
Proof.
  split; [|split].
  - intros objs Hl. exact (gvid_loop_ok objs [] Hl).
  - intros objs t H. exact (gvid_loop_length objs [] t H).
  - intros objs labels H Hid. exact (gvid_loop_in_order objs labels [] H Hid).
Qed.

Lemma build_gvid_table_spec_witness :
  build_gvid_table (tg_objects web_graph) = Ok ["aws_lb.front"; "aws_instance.web"].
Proof.
  apply (proj2 (proj2 build_gvid_table_spec)); [repeat constructor|].
  intros i o H. do 2 (destruct i as [|i]; [injection H as <-; reflexivity|]).
  destruct i; discriminate.
Defined.

(** An object whose [_gvid] is past the end of the table. *)
Example gvid_out_of_order :
  build_gvid_table [{| gv_id := 1; gv_label := Some (PStr "a") |};
                    {| gv_id := 0; gv_label := Some (PStr "b") |}] = Err IndexError.
Proof. reflexivity. Qed.

(** ** Count instances in the label lookup *)

Lemma prefix_one_char (a c : ascii) (x y : string) :
  String.prefix (String a EmptyString) (String c x) =
  String.prefix (String a EmptyString) (String c y).
Proof. simpl. destruct (ascii_dec a c); [destruct x, y; reflexivity | reflexivity]. Qed.

Lemma split_first_tilde_app (A s : string) :
  contains "~" A = false ->
  split_first "~" (A ++ s) =
    match split_first "~" s with
    | Some (a, b) => Some ((A ++ a)%string, b)
    | None => None
    end.
Proof.
  induction A as [|c A IH]; intros H.
  - simpl. destruct (split_first "~" s) as [[a b]|]; reflexivity.
  - cbn [contains] in H. apply orb_false_iff in H as [Hp Hc].
    rewrite (prefix_one_char "~" c A (A ++ s)) in Hp.
    change (String c A ++ s)%string with (String c (A ++ s)).
    change (split_first "~" (String c (A ++ s))) with
      (if String.prefix "~" (String c (A ++ s))
       then Some (EmptyString, substring (String.length "~")
                    (String.length (String c (A ++ s)) - String.length "~") (String c (A ++ s)))
       else match split_first "~" (A ++ s) with
            | Some (a, b) => Some (String c a, b)
            | None => None
            end).
    rewrite Hp, (IH Hc).
    destruct (split_first "~" s) as [[a b]|]; reflexivity.
Qed.

Lemma str_app_nil_r (s : string) : (s ++ "")%string = s.
Proof. induction s as [|c s IH]; simpl; [reflexivity|]. rewrite IH. reflexivity. Qed.

Lemma split_head_tilde (A s : string) :
  contains "~" A = false ->
  split_head "~" (A ++ String "~" s) = A /\ split_head "~" A = A.
Proof.
  intros H. unfold split_head. split.
  - rewrite (split_first_tilde_app A _ H). destruct s; simpl; apply str_app_nil_r.
  - pose proof (split_first_tilde_app A "" H) as E. rewrite str_app_nil_r in E.
    rewrite E. reflexivity.
Qed.

(** X3: every count instance [A~<n>] of an address [A] without ["~"] is
    looked up in the label table exactly as [A] itself: all instances of a
    counted resource resolve to the same low-level node (the first entry
    labelled [A]), so they receive the same connections. *)
Theorem count_instances_share_node (table : list string) (A s : string) :
  contains "~" A = false ->
  resolve_node_id table (A ++ String "~" s) = resolve_node_id table A.
Proof.
  intros H. unfold resolve_node_id.
  destruct (split_head_tilde A s H) as [E1 E2]. rewrite E1, E2. reflexivity.
Qed.

Lemma count_instances_share_node_witness :
  resolve_node_id ["aws_lb.front"; "aws_instance.web"] "aws_instance.web~2" = Ok 1.
Proof.
  exact (eq_trans (count_instances_share_node ["aws_lb.front"; "aws_instance.web"]
                     "aws_instance.web" "2" eq_refl) eq_refl).
Defined.

(** ** Edges the resolver reads *)

Lemma edge_loop_filter (reverse table : list string) (node_id : nat)
  (p : gv_edge -> bool) (edges : list gv_edge) (gn : dict (list string) * string) :
  (forall c, In c edges -> e_head c = node_id -> p c = true) ->
  edge_loop reverse table node_id (filter p edges) gn =
  edge_loop reverse table node_id edges gn.
Proof.
  revert gn. induction edges as [|c cs IH]; intros gn Hp; simpl; [reflexivity|].
  destruct (p c) eqn:Hc.
  - simpl. destruct (conn_step reverse table node_id gn c) as [gn'|e]; simpl; [|reflexivity].
    apply IH. intros c' Hi He. apply Hp; [right; exact Hi | exact He].
  - assert (Hne : Nat.eqb node_id (e_head c) = false).
    { apply Nat.eqb_neq. intros E. specialize (Hp c (or_introl eq_refl) (eq_sym E)). congruence. }
    destruct gn as [g node]. unfold conn_step at 1. simpl. rewrite Hne. simpl.
    apply IH. intros c' Hi He. apply Hp; [right; exact Hi | exact He].
Qed.

Lemma node_loop_filter (reverse table : list string) (p : gv_edge -> bool)
  (edges : list gv_edge) (nodes : list string) (g : dict (list string)) :
  (forall k i c, In k nodes -> resolve_node_id table k = Ok i -> In c edges ->
     e_head c = i -> p c = true) ->
  node_loop reverse table (filter p edges) nodes g = node_loop reverse table edges nodes g.
Proof.
  revert g. induction nodes as [|k ks IH]; intros g Hp; simpl; [reflexivity|].
  destruct (resolve_node_id table k) as [i|e] eqn:Hr; simpl; [|reflexivity].
  rewrite edge_loop_filter by (intros c Hc He; exact (Hp k i c (or_introl eq_refl) Hr Hc He)).
  destruct (edge_loop reverse table i edges (g, k)) as [gn|e]; simpl; [|reflexivity].
  apply IH. intros k' i' c Hk. apply Hp. right. exact Hk.
Qed.

(** X4: the resolver only reads the edges of the low-level graph whose head
    is the node of a graph key: dropping every other edge (those of
    providers, variables, outputs, data sources, ...) does not change the
    result of [tf_makegraph]. *)
Theorem tf_makegraph_node_edges_only (reverse : list string) (rs : list resource_change)
  (tg : tfgraph) (st0 : graph_state) (t : list string) :
  setup_graph rs = Ok st0 -> build_gvid_table (tg_objects tg) = Ok t ->
  tf_makegraph reverse rs
    {| tg_objects := tg_objects tg;
       tg_edges := Some (filter (head_is_node t (keys (graphdict st0))) (edges_of tg)) |} =
  tf_makegraph reverse rs tg.
Proof.
  intros Hs Ht. unfold tf_makegraph. rewrite Hs. simpl. rewrite Ht. simpl.
  unfold edges_of at 1. simpl.
  rewrite node_loop_filter; [reflexivity|].
  intros k i c Hk Hr _ He. unfold head_is_node. apply existsb_exists.
  exists k. split; [exact Hk|]. rewrite Hr. apply Nat.eqb_eq. exact (eq_sym He).
Qed.

Lemma tf_makegraph_node_edges_only_witness :
  tf_makegraph [] web_plan
    {| tg_objects := tg_objects web_graph;
       tg_edges := Some (filter (head_is_node ["aws_lb.front"; "aws_instance.web"]
                                  ["aws_instance.web~1"; "aws_instance.web~2"; "aws_lb.front"])
                                (edges_of web_graph)) |} =
  tf_makegraph [] web_plan web_graph.
Proof.
  exact (tf_makegraph_node_edges_only [] web_plan web_graph
           {| graphdict := [("aws_instance.web~1", []); ("aws_instance.web~2", []);
                            ("aws_lb.front", [])];
              meta_data := [("aws_instance.web~1", []); ("aws_instance.web~2", []);
                            ("aws_lb.front", [])];
              node_list := ["aws_instance.web~1"; "aws_instance.web~2"; "aws_lb.front"] |}
           ["aws_lb.front"; "aws_instance.web"] eq_refl eq_refl).
Defined.

(** ** Offline state path *)

Lemma state_instances_length (r : state_resource) :
  length (state_instances r) =
    match sr_instances r with Some l => Nat.max 1 (length l) | None => 1 end.
Proof.
  unfold state_instances. destruct (sr_instances r) as [[|i l]|]; reflexivity.
Qed.

(** X5: [_plandata_from_state] succeeds exactly when the ["module"] of every
    resource is absent, falsy or a string; it then emits one record per
    instance, and one for a resource with no (or an empty list of)
    instances; every record has an ["index"] key and empty
    [after_unknown] and [after_sensitive]. *)
Theorem plandata_from_state_records :
  (forall resources,
     (exists cs, plandata_from_state resources = Ok cs) <->
     Forall (fun r => exists ma, state_module_address r = Ok ma) resources) /\
  (forall resources cs, plandata_from_state resources = Ok cs ->
     length cs = list_sum (map (fun r => match sr_instances r with
                                         | Some l => Nat.max 1 (length l)
                                         | None => 1
                                         end) resources) /\
     Forall (fun c => (exists v, rc_index c = Some v) /\
                      rc_after_unknown c = PDict [] /\ rc_after_sensitive c = PDict []) cs).
Proof.
  split.
  - induction resources as [|r rs IH]; simpl.
    + split; [constructor | eauto].
    + rewrite Forall_cons_iff, <- IH.
      destruct (state_module_address r) as [ma|e]; simpl.
      * destruct (plandata_from_state rs) as [cs|e]; simpl.
        -- split; [intros _; split; eauto | eauto].
        -- split; [intros [? H]; discriminate|]. intros [_ [? H]]. discriminate.
      * split; [intros [? H]; discriminate|]. intros [[? Hm] _]. discriminate.
  - induction resources as [|r rs IH]; intros cs H; simpl in H.
    + inversion H; subst. split; [reflexivity | constructor].
    + destruct (state_module_address r) as [ma|e]; simpl in H; [|discriminate].
      destruct (plandata_from_state rs) as [cs'|e]; simpl in H; [|discriminate].
      inversion H; subst; clear H. destruct (IH cs' eq_refl) as [Hl Hf].
      split.
      * rewrite length_app, length_map, state_instances_length, Hl. reflexivity.
      * apply Forall_app. split; [|exact Hf].
        apply Forall_forall. intros c Hc. apply in_map_iff in Hc as [i [<- _]].
        simpl. split; [eauto | split; reflexivity].
Qed.

Lemma plandata_from_state_records_witness :
  exists cs,
    plandata_from_state
      [{| sr_mode := None; sr_address := Some (PStr "aws_instance.web"); sr_module := None;
          sr_instances := Some [{| si_index_key := Some (PInt 0); si_attributes := None |};
                                {| si_index_key := Some (PInt 1); si_attributes := None |}] |}]
    = Ok cs /\ length cs = 2.
Proof.
  eexists. split; [reflexivity|].
  exact (proj1 (proj2 plandata_from_state_records
    [{| sr_mode := None; sr_address := Some (PStr "aws_instance.web"); sr_module := None;
        sr_instances := Some [{| si_index_key := Some (PInt 0); si_attributes := None |};
                              {| si_index_key := Some (PInt 1); si_attributes := None |}] |}]
    _ eq_refl)).
Defined.

Lemma node_details_no_address (c : resource_change) : rc_address c = PNone ->
  exists e, node_details c = Err e.
Proof.
  intros Ha. unfold node_details.
  destruct (rc_after c) as [| | | | |d]; simpl; eauto.
  destruct (py_update d (rc_after_unknown c)) as [d1|e]; simpl; eauto.
  destruct (py_update d1 (rc_after_sensitive c)) as [d2|e]; simpl; eauto.
  rewrite Ha. simpl. eauto.
Qed.

(** X6: on the offline state path, a managed resource without an
    ["address"] makes the whole build fail: [str(None)] gives the node key
    ["None..."], and at the latest the test ["module." in None] raises
    [TypeError].  (Terraform's raw state files give resources no
    ["address"].) *)
Theorem state_without_address_fails (resources : list state_resource) (r : state_resource) :
  In r resources -> sr_address r = None -> state_mode r = PStr "managed" ->
  exists e, tf_from_offline (OfflineState resources) = Err e.
Proof.
  intros Hin Ha Hm. unfold tf_from_offline, offline_resource_changes. simpl.
  destruct (plandata_from_state resources) as [cs|e] eqn:Hp; simpl; [|eauto].
  destruct (plandata_from_state_in resources cs r Hp Hin) as [ma [_ Hcs]].
  set (c := state_change r (state_mode r) ma (hd {| si_index_key := None; si_attributes := None |}
                                                 (state_instances r))).
  assert (Hc : In c cs).
  { apply Hcs. unfold state_instances.
    destruct (sr_instances r) as [[|i l]|]; simpl; auto. }
  destruct cs as [|c0 cs0]; [destruct Hc|]. simpl.
  destruct (setup_graph (c0 :: cs0)) as [st|e] eqn:Hs; [|eauto].
  exfalso.
  assert (Hok : Forall record_ok (c0 :: cs0)) by (apply setup_graph_ok; eauto).
  rewrite Forall_forall in Hok. destruct (Hok c Hc) as [_ [d Hd]].
  - unfold is_managed. simpl. rewrite Hm. reflexivity.
  - destruct (node_details_no_address c) as [e He]; [simpl; rewrite Ha; reflexivity|].
    congruence.
Qed.

Lemma state_without_address_fails_witness :
  exists e, tf_from_offline (OfflineState
    [{| sr_mode := None; sr_address := None; sr_module := None;
        sr_instances := Some [{| si_index_key := Some (PInt 0); si_attributes := None |}] |}])
    = Err e.
Proof.
  apply (state_without_address_fails _ _ (in_eq _ _)); reflexivity.
Defined.

(** ** Module names in the node metadata *)

Lemma prefix_app (p x : string) : String.prefix p (p ++ x) = true.
Proof.
  induction p as [|c p IH]; simpl; [destruct x; reflexivity|].
  destruct (ascii_dec c c) as [_|n]; [exact IH | contradiction].
Qed.

Lemma substring_all (s : string) : substring 0 (String.length s) s = s.
Proof. induction s as [|c s IH]; simpl; [reflexivity|]. rewrite IH. reflexivity. Qed.

Lemma substring_app (p x : string) :
  substring (String.length p) (String.length (p ++ x) - String.length p) (p ++ x) = x.
Proof.
  induction p as [|c p IH]; simpl; [rewrite Nat.sub_0_r; apply substring_all | exact IH].
Qed.

Lemma split_first_prefix (sep s : string) : String.prefix sep s = true ->
  split_first sep s =
    Some (EmptyString, substring (String.length sep) (String.length s - String.length sep) s).
Proof. intros H. destruct s; cbn [split_first]; rewrite H; reflexivity. Qed.

Lemma split_first_app (sep x : string) : split_first sep (sep ++ x) = Some (EmptyString, x).
Proof. rewrite split_first_prefix by apply prefix_app. rewrite substring_app. reflexivity. Qed.

Lemma split_first_absent (sep s : string) : contains sep s = false -> split_first sep s = None.
Proof.
  induction s as [|c s IH]; intros H; cbn [contains] in H; apply orb_false_iff in H as [Hp Hc];
    cbn [split_first]; rewrite Hp; [reflexivity|].
  rewrite (IH Hc). reflexivity.
Qed.

Lemma module_name_app (m : string) :
  module_name (Some (PStr ("module." ++ m))) =
    Ok (match split_first "module." m with Some (a, _) => a | None => m end).
Proof. unfold module_name, split_second. rewrite split_first_app. reflexivity. Qed.

Lemma node_details_module (r : resource_change) (a : string) (d : dict pyval) :
  rc_address r = PStr a -> contains "module." a = true -> node_details r = Ok d ->
  exists n, module_name (rc_module_address r) = Ok n /\ dict_get "module" d = Some (PStr n).
Proof.
  intros Ha Hc H. unfold node_details in H.
  destruct (rc_after r) as [| | | | |d0]; simpl in H; try discriminate.
  destruct (py_update d0 (rc_after_unknown r)) as [d1|e]; simpl in H; [|discriminate].
  destruct (py_update d1 (rc_after_sensitive r)) as [d2|e]; simpl in H; [|discriminate].
  rewrite Ha in H. simpl in H. rewrite Hc in H.
  destruct (module_name (rc_module_address r)) as [n|e]; simpl in H; [|discriminate].
  inversion H; subst. exists n. split; [reflexivity|]. rewrite dict_get_set. reflexivity.
Qed.

(** X7: the metadata of a node whose address contains ["module."] records,
    under ["module"], the name cut from its module address.  For a plan
    record with module address ["module.<m>"] ([m] without ["module."])
    this is [m]; on the offline state path, where the code prefixes the
    state's ["module"] value (which Terraform writes as ["module.<m>"])
    with ["module."] again, it is always the empty string. *)
Theorem node_details_module_name :
  (forall (r : resource_change) (m a : string) (d : dict pyval),
     rc_module_address r = Some (PStr ("module." ++ m)) -> contains "module." m = false ->
     rc_address r = PStr a -> contains "module." a = true ->
     node_details r = Ok d -> dict_get "module" d = Some (PStr m)) /\
  (forall (sr : state_resource) (m a : string) (ma : pyval) (i : state_instance)
          (d : dict pyval),
     sr_module sr = Some (PStr ("module." ++ m)) -> state_module_address sr = Ok ma ->
     sr_address sr = Some (PStr a) -> contains "module." a = true ->
     node_details (state_change sr (state_mode sr) ma i) = Ok d ->
     dict_get "module" d = Some (PStr "")).
Proof.
  split.
  - intros r m a d Hm Hn Ha Hc H.
    destruct (node_details_module r a d Ha Hc H) as [n [Hmn Hd]].
    rewrite Hm, module_name_app, split_first_absent in Hmn by exact Hn.
    inversion Hmn; subst. exact Hd.
  - intros sr m a ma i d Hm Hma Ha Hc H.
    assert (Ha' : rc_address (state_change sr (state_mode sr) ma i) = PStr a)
      by (simpl; rewrite Ha; reflexivity).
    destruct (node_details_module _ a d Ha' Hc H) as [n [Hmn Hd]].
    assert (ma = PStr ("module." ++ ("module." ++ m))) as ->
      by (unfold state_module_address in Hma; rewrite Hm in Hma; injection Hma; auto).
    cbn [state_change rc_module_address] in Hmn.
    rewrite module_name_app, split_first_app in Hmn.
    inversion Hmn; subst. exact Hd.
Qed.

Lemma node_details_module_name_witness :
  (exists d, node_details
       {| rc_address := PStr "module.vpc.aws_vpc.main"; rc_mode := PStr "managed";
          rc_index := None; rc_module_address := Some (PStr "module.vpc");
          rc_after := PDict []; rc_after_unknown := PDict []; rc_after_sensitive := PDict [] |}
       = Ok d /\ dict_get "module" d = Some (PStr "vpc")) /\
  (exists d, node_details
       (state_change {| sr_mode := None; sr_address := Some (PStr "module.vpc.aws_vpc.main");
                        sr_module := Some (PStr "module.vpc"); sr_instances := None |}
                     (PStr "managed") (PStr "module.module.vpc")
                     {| si_index_key := None; si_attributes := None |})
       = Ok d /\ dict_get "module" d = Some (PStr "")).
Proof.
  split; eexists; split; [reflexivity| |reflexivity|].
  - apply (proj1 node_details_module_name
             {| rc_address := PStr "module.vpc.aws_vpc.main"; rc_mode := PStr "managed";
                rc_index := None; rc_module_address := Some (PStr "module.vpc");
                rc_after := PDict []; rc_after_unknown := PDict [];
                rc_after_sensitive := PDict [] |}
             "vpc" "module.vpc.aws_vpc.main");
      reflexivity.
  - apply (proj2 node_details_module_name
             {| sr_mode := None; sr_address := Some (PStr "module.vpc.aws_vpc.main");
                sr_module := Some (PStr "module.vpc"); sr_instances := None |}
             "vpc" "module.vpc.aws_vpc.main" (PStr "module.module.vpc")
             {| si_index_key := None; si_attributes := None |});
      reflexivity.
Defined.

(** ** Distinct instances get distinct node keys *)

Lemma str_length_app (s t : string) :
  String.length (s ++ t) = String.length s + String.length t.
Proof. induction s as [|c s IH]; simpl; [reflexivity|]. rewrite IH. reflexivity. Qed.

Lemma str_app_cancel_l (a s t : string) : (a ++ s)%string = (a ++ t)%string -> s = t.
Proof. induction a as [|c a IH]; simpl; intros H; [exact H|]. injection H. exact IH. Qed.

Lemma str_app_cancel_r (s t z : string) : (s ++ z)%string = (t ++ z)%string -> s = t.
Proof.
  revert t. induction s as [|c s IH]; intros [|d t] H; simpl in H; try reflexivity.
  - apply (f_equal String.length) in H. simpl in H. rewrite str_length_app in H. lia.
  - apply (f_equal String.length) in H. simpl in H. rewrite str_length_app in H. lia.
  - injection H as -> H. f_equal. apply IH, H.
Qed.

Lemma str_app_not_self (a x : string) (c : ascii) : a <> (a ++ String c x)%string.
Proof.
  intros H. apply (f_equal String.length) in H. rewrite str_length_app in H. simpl in H. lia.
Qed.

Lemma py_str_int_inj (z1 z2 : Z) : py_str_int z1 = py_str_int z2 -> z1 = z2.
Proof.
  assert (Hneg : forall p, py_str_int (Zneg p) = String "-" (py_str_int (Zpos p)))
    by reflexivity.
  assert (Hnd : forall p x, parse_digits (String "-" x) <> Some (Zpos p))
    by (intros p x; discriminate).
  intros H. destruct (Z.leb_spec 0 z1) as [H1|H1], (Z.leb_spec 0 z2) as [H2|H2].
  - pose proof (py_str_int_digits z1 H1) as E1. rewrite H, py_str_int_digits in E1 by exact H2.
    congruence.
  - destruct z2 as [| |p2]; try lia. rewrite Hneg in H.
    pose proof (py_str_int_digits z1 H1) as E1. rewrite H in E1. discriminate.
  - destruct z1 as [| |p1]; try lia. rewrite Hneg in H.
    pose proof (py_str_int_digits z2 H2) as E2. rewrite <- H in E2. discriminate.
  - destruct z1 as [| |p1]; try lia. destruct z2 as [| |p2]; try lia.
    rewrite !Hneg in H. injection H as H.
    assert (H' : py_str_int (Zpos p1) = py_str_int (Zpos p2)) by exact H.
    pose proof (py_str_int_digits (Zpos p1) ltac:(lia)) as E1.
    rewrite H', py_str_int_digits in E1 by lia. congruence.
Qed.

(** [isinstance(index, int)] for a [bool] index: [True] and [1] share a key. *)
Definition index_not_bool (i : option pyval) : bool :=
  match i with Some (PBool _) => false | _ => true end.

(** X8: two resource changes of the same address whose indices are absent,
    integers or strings (booleans excluded: [True] and [1] both give
    ["~2"]) get the same node key only when their indices are equal: the
    count instances ["A~<i+1>"], the for_each instances ["A[k]"] and the
    bare ["A"] of one resource never share a node. *)
Theorem node_key_injective (r1 r2 : resource_change) (k : string) :
  rc_address r1 = rc_address r2 ->
  index_not_bool (rc_index r1) = true -> index_not_bool (rc_index r2) = true ->
  node_key r1 = Ok k -> node_key r2 = Ok k -> rc_index r1 = rc_index r2.
Proof.
  intros Ha Hb1 Hb2 H1 H2. unfold node_key in H1, H2. rewrite <- Ha in H2.
  destruct (py_str (rc_address r1)) as [a|e]; simpl in H1, H2; [|discriminate].
  destruct (rc_index r1) as [[| |i1|s1| |]|], (rc_index r2) as [[| |i2|s2| |]|];
    simpl in Hb1, Hb2, H1, H2; try discriminate; try reflexivity;
    rewrite <- H2 in H1; injection H1 as H1;
    try (exfalso; eapply str_app_not_self; (exact H1 || exact (eq_sym H1))).
  - apply str_app_cancel_l in H1. injection H1 as H1. apply py_str_int_inj in H1.
    f_equal. f_equal. lia.
  - apply str_app_cancel_l in H1. discriminate.
  - apply str_app_cancel_l in H1. discriminate.
  - apply str_app_cancel_l in H1. injection H1 as H1. apply str_app_cancel_r in H1.
    subst. reflexivity.
Qed.

Lemma node_key_injective_witness :
  Some (PInt 0) = Some (PInt 0).
Proof.
  exact (node_key_injective
           {| rc_address := PStr "aws_instance.web"; rc_mode := PStr "managed";
              rc_index := Some (PInt 0); rc_module_address := None;
              rc_after := PDict []; rc_after_unknown := PDict [];
              rc_after_sensitive := PDict [] |}
           {| rc_address := PStr "aws_instance.web"; rc_mode := PStr "managed";
              rc_index := Some (PInt 0); rc_module_address := None;
              rc_after := PDict [("ami", PStr "x")]; rc_after_unknown := PDict [];
              rc_after_sensitive := PDict [] |}
           "aws_instance.web~1" eq_refl eq_refl eq_refl eq_refl eq_refl).
Defined.

(** ** Missing CIDR blocks in the implied VPC relations *)

Lemma subnet_loop_fails (meta : dict (dict pyval)) (v : string) (cv : ipnet)
  (ss : list string) (g : dict (list string)) (s : string) (e : py_error) :
  In s ss -> cidr_of meta s = Err e -> exists e', subnet_loop meta v cv ss g = Err e'.
Proof.
  revert g. induction ss as [|s' ss IH]; intros g Hin He; [destruct Hin|].
  simpl. destruct Hin as [<-|Hin]; [rewrite He; simpl; eauto|].
  destruct (cidr_of meta s') as [c|e']; simpl; [|eauto].
  destruct (overlaps c cv); [destruct (dict_append v s' g) as [g'|e']; simpl; [|eauto]|];
    apply IH; assumption.
Qed.

Lemma vpc_loop_fails_vpc (meta : dict (dict pyval)) (ss vs : list string)
  (g : dict (list string)) (v : string) (e : py_error) :
  In v vs -> cidr_of meta v = Err e -> exists e', vpc_loop meta ss vs g = Err e'.
Proof.
  revert g. induction vs as [|v' vs IH]; intros g Hin He; [destruct Hin|].
  simpl. destruct Hin as [<-|Hin]; [rewrite He; simpl; eauto|].
  destruct (cidr_of meta v') as [c|e']; simpl; [|eauto].
  destruct (subnet_loop meta v' c ss g) as [g'|e']; simpl; [|eauto].
  apply IH; assumption.
Qed.

Lemma vpc_loop_fails_subnet (meta : dict (dict pyval)) (ss vs : list string)
  (g : dict (list string)) (s : string) (e : py_error) :
  vs <> [] -> In s ss -> cidr_of meta s = Err e -> exists e', vpc_loop meta ss vs g = Err e'.
Proof.
  intros Hvs Hin He. destruct vs as [|v vs]; [contradiction|]. simpl.
  destruct (cidr_of meta v) as [c|e']; simpl; [|eauto].
  destruct (subnet_loop_fails meta v c ss g s e Hin He) as [e' ->]. simpl. eauto.
Qed.

(** X9: when the graph has at least one VPC key and one subnet key,
    [add_vpc_implied_relations] raises as soon as one VPC or subnet has no
    metadata entry or no ["cidr_block"] attribute: every VPC's CIDR block
    and every subnet's are read, whether or not they overlap. *)
Theorem add_vpc_missing_cidr (meta : dict (dict pyval)) (g : dict (list string))
  (v s : string) :
  In v (keys g) -> is_vpc v = true -> In s (keys g) -> is_subnet s = true ->
  cidr_of meta v = Err KeyError \/ cidr_of meta s = Err KeyError ->
  exists e, add_vpc_implied_relations meta g = Err e.
Proof.
  intros Hv Hvpc Hs Hsub Hc. unfold add_vpc_implied_relations.
  assert (Iv : In v (filter is_vpc (keys g))) by (apply filter_In; auto).
  assert (Is : In s (filter is_subnet (keys g))) by (apply filter_In; auto).
  destruct (filter is_vpc (keys g)) as [|v0 vs] eqn:Ev; [destruct Iv|].
  destruct (filter is_subnet (keys g)) as [|s0 ss] eqn:Es; [destruct Is|].
  change (Nat.ltb 0 (length (v0 :: vs)) && Nat.ltb 0 (length (s0 :: ss)))%bool with true.
  cbv iota. destruct Hc as [Hc|Hc].
  - exact (vpc_loop_fails_vpc _ _ _ g v _ Iv Hc).
  - apply (vpc_loop_fails_subnet _ _ _ g s KeyError); [discriminate | exact Is | exact Hc].
Qed.

Lemma add_vpc_missing_cidr_witness :
  exists e, add_vpc_implied_relations
    [("aws_vpc.main", [("cidr_block", PStr "10.0.0.0/16")]); ("aws_subnet.a", [])]
    [("aws_vpc.main", []); ("aws_subnet.a", [])] = Err e.
Proof.
  apply (add_vpc_missing_cidr _ _ "aws_vpc.main" "aws_subnet.a");
    [simpl; auto | reflexivity | simpl; auto | reflexivity | right; reflexivity].
Defined.

(** ** Exit codes of the offline path *)

Definition is_exit (e : py_error) : bool :=
  match e with SystemExit _ => true | _ => false end.

Ltac err_not_exit :=
  intros ? H; repeat (discriminate || (injection H as <-; reflexivity) ||
    match type of H with
    | context [match ?x with _ => _ end] => destruct x; simpl in H
    end).

Lemma py_str_no_exit (v : pyval) (e : py_error) : py_str v = Err e -> is_exit e = false.
Proof. revert e. destruct v as [|[]| | | |]; err_not_exit. Qed.

Lemma node_key_no_exit (r : resource_change) (e : py_error) :
  node_key r = Err e -> is_exit e = false.
Proof.
  unfold node_key. destruct (py_str (rc_address r)) eqn:Hp; simpl;
    [|intros H; injection H as <-; exact (py_str_no_exit _ _ Hp)].
  revert e. err_not_exit.
Qed.

Lemma node_details_no_exit (r : resource_change) (e : py_error) :
  node_details r = Err e -> is_exit e = false.
Proof.
  unfold node_details, py_update, address_has_module, module_name, split_second.
  revert e. err_not_exit.
Qed.

Lemma builder_loop_no_exit (rs : list resource_change) (st : graph_state) (e : py_error) :
  builder_loop rs st = Err e -> is_exit e = false.
Proof.
  revert st. induction rs as [|r rs IH]; intros st H; simpl in H; [discriminate|].
  unfold builder_step in H. destruct (is_managed r); [|exact (IH st H)].
  destruct (node_key r) as [k|e'] eqn:Hk; simpl in H;
    [|injection H as <-; exact (node_key_no_exit r e' Hk)].
  destruct (node_details r) as [d|e'] eqn:Hd; simpl in H;
    [exact (IH _ H) | injection H as <-; exact (node_details_no_exit r e' Hd)].
Qed.

Lemma setup_graph_no_exit (rs : list resource_change) (e : py_error) :
  setup_graph rs = Err e -> is_exit e = false.
Proof.
  unfold setup_graph. destruct (builder_loop rs empty_state) eqn:H; simpl; [discriminate|].
  intros E. injection E as <-. exact (builder_loop_no_exit _ _ _ H).
Qed.

Lemma plandata_from_state_no_exit (resources : list state_resource) (e : py_error) :
  plandata_from_state resources = Err e -> is_exit e = false.
Proof.
  induction resources as [|r rs IH]; simpl; [discriminate|].
  destruct (state_module_address r) as [ma|e'] eqn:Hm; simpl.
  - destruct (plandata_from_state rs); simpl; [discriminate | exact IH].
  - intros E. injection E as <-. unfold state_module_address in Hm. revert Hm.
    destruct (sr_module r) as [m|]; [|discriminate].
    destruct (truthy m); [|discriminate].
    destruct m; intros H; try discriminate; injection H as <-; reflexivity.
Qed.

Lemma plandata_from_state_nil (resources : list state_resource) :
  plandata_from_state resources = Ok [] -> resources = [].
Proof.
  destruct resources as [|r rs]; simpl; [reflexivity|].
  destruct (state_module_address r); simpl; [|discriminate].
  destruct (plandata_from_state rs); simpl; [|discriminate].
  unfold state_instances. destruct (sr_instances r) as [[|i l]|]; simpl; discriminate.
Qed.

(** X10: the offline path ends the program with [raise SystemExit(1)]
    exactly when no file is given, the plan or state file cannot be
    loaded, or the plan JSON has no [resource_changes]; and with [exit()]
    (status 0) exactly when the plan's [resource_changes] is empty or the
    state has no resources.  A failure of the state conversion or of the
    node builder is an ordinary exception, never an exit. *)
Theorem offline_exit_codes (inp : offline_input) (code : Z) :
  tf_from_offline inp = Err (SystemExit code) <->
  (code = 1%Z /\ (inp = OfflineNoFile \/ inp = OfflinePlanUnreadable \/
                  inp = OfflinePlan None \/ inp = OfflineStateUnreadable)) \/
  (code = 0%Z /\ (inp = OfflinePlan (Some []) \/ inp = OfflineState [])).
Proof.
  unfold tf_from_offline, offline_resource_changes.
  destruct inp as [| |[rs|]| |resources]; simpl.
  - split; [intros H; injection H as <-; auto|].
    intros [[-> _]|[_ [H|H]]]; [reflexivity | discriminate | discriminate].
  - split; [intros H; injection H as <-; auto 7|].
    intros [[-> _]|[_ [H|H]]]; [reflexivity | discriminate | discriminate].
  - destruct rs as [|r rs]; simpl.
    + split; [intros H; injection H as <-; auto|].
      intros [[_ [H|[H|[H|H]]]]|[-> _]]; try discriminate; reflexivity.
    + split.
      * intros H. apply setup_graph_no_exit in H. discriminate.
      * intros [[_ [H|[H|[H|H]]]]|[_ [H|H]]]; discriminate.
  - split; [intros H; injection H as <-; auto 7|].
    intros [[-> _]|[_ [H|H]]]; [reflexivity | discriminate | discriminate].
  - split; [intros H; injection H as <-; auto 7|].
    intros [[-> _]|[_ [H|H]]]; [reflexivity | discriminate | discriminate].
  - destruct (plandata_from_state resources) as [cs|e] eqn:Hp; simpl.
    + destruct cs as [|c cs]; simpl.
      * apply plandata_from_state_nil in Hp. subst.
        split; [intros H; injection H as <-; auto|].
        intros [[_ [H|[H|[H|H]]]]|[-> _]]; try discriminate; reflexivity.
      * split.
        -- intros H. apply setup_graph_no_exit in H. discriminate.
        -- intros [[_ [H|[H|[H|H]]]]|[_ [H|H]]]; try discriminate.
           injection H as ->. discriminate.
    + split.
      * intros H. injection H as ->. apply plandata_from_state_no_exit in Hp. discriminate.
      * intros [[_ [H|[H|[H|H]]]]|[_ [H|H]]]; try discriminate.
        injection H as ->. discriminate.
Qed.

(** ** The edge resolver only appends *)

(** [g'] extends [g]: the keys of [g] keep their order, new keys come after
    them and are labels of [table], and each list of [g] is a prefix of the
    list of the same key in [g']. *)
Definition grows (table : list string) (g g' : dict (list string)) : Prop :=
  (exists ks, keys g' = keys g ++ ks /\ Forall (fun k => In k table) ks) /\
  (forall k es, dict_get k g = Some es -> exists more, dict_get k g' = Some (es ++ more)).

Lemma grows_refl (table : list string) (g : dict (list string)) : grows table g g.
Proof.
  split; [exists []; rewrite app_nil_r; auto|].
  intros k es H. exists []. rewrite app_nil_r. exact H.
Qed.

Lemma grows_trans (table : list string) (g1 g2 g3 : dict (list string)) :
  grows table g1 g2 -> grows table g2 g3 -> grows table g1 g3.
Proof.
  intros [[ks1 [K1 F1]] L1] [[ks2 [K2 F2]] L2]. split.
  - exists (ks1 ++ ks2). rewrite K2, K1, app_assoc. split; [reflexivity|].
    apply Forall_app; auto.
  - intros k es H. destruct (L1 k es H) as [m1 H1]. destruct (L2 k _ H1) as [m2 H2].
    exists (m1 ++ m2). rewrite <- app_assoc in H2. exact H2.
Qed.

Lemma grows_append (table : list string) (k x : string) (g g' : dict (list string)) :
  dict_append k x g = Ok g' -> grows table g g'.
Proof.
  intros Ha. destruct (dict_append_spec k x g g' Ha) as [Hk Hg]. split.
  - exists []. rewrite Hk, app_nil_r. auto.
  - intros k' es H. rewrite Hg, H. destruct (eqs k' k); simpl; eauto.
    exists []. rewrite app_nil_r. reflexivity.
Qed.

Lemma grows_set_new (table : list string) (k : string) (g : dict (list string)) :
  mem k (keys g) = false -> In k table -> grows table g (dict_set k [] g).
Proof.
  intros Hm Ht. split.
  - exists [k]. rewrite keys_dict_set, Hm. auto.
  - intros k' es H. exists []. rewrite app_nil_r, dict_get_set.
    destruct (eqs_spec k' k) as [->|]; [|exact H].
    apply dict_get_in, mem_In in H. congruence.
Qed.

Lemma conn_step_grows (reverse table : list string) (node_id : nat)
  (g : dict (list string)) (node : string) (c : gv_edge)
  (g' : dict (list string)) (node' : string) :
  conn_step reverse table node_id (g, node) c = Ok (g', node') -> grows table g g'.
Proof.
  unfold conn_step. simpl. intros H.
  destruct (Nat.eqb node_id (e_head c)); [|injection H as <- _; apply grows_refl].
  destruct (nth_py table (e_tail c)) as [tl|e] eqn:Ht; simpl in H; [|discriminate].
  destruct (Nat.ltb 0 _); [|injection H as <- _; apply grows_refl].
  destruct (nth_py table (e_head c)) as [hl|e]; simpl in H; [|discriminate].
  set (mc := filter (fun k => startswith k tl) (keys g)) in *.
  set (nd := if (negb (mem node (keys g)) && _)%bool then _ else node) in *.
  set (conn := if (negb (mem tl (keys g)) && Nat.eqb (length mc) 1)%bool
               then hd tl mc else tl) in *.
  destruct (mem (split_head "." tl) reverse).
  - destruct (mem conn (keys g)) eqn:Hm.
    + destruct (dict_append conn nd g) as [g2|e] eqn:Ha; simpl in H; [|discriminate].
      injection H as <- _. exact (grows_append table conn nd g g2 Ha).
    + destruct (dict_append conn nd (dict_set conn [] g)) as [g2|e] eqn:Ha;
        simpl in H; [|discriminate].
      injection H as <- _. apply (grows_trans table g (dict_set conn [] g)).
      * apply grows_set_new; [exact Hm|].
        unfold conn in Hm |- *. destruct (negb (mem tl (keys g)) && _)%bool eqn:E.
        -- apply andb_true_iff in E as [_ E]. apply Nat.eqb_eq in E.
           apply mem_false in Hm. exfalso. apply Hm, hd_filter_one, E.
        -- exact (nth_py_in table _ tl Ht).
      * exact (grows_append table conn nd _ g2 Ha).
  - destruct (dict_append nd conn g) as [g2|e] eqn:Ha; simpl in H; [|discriminate].
    injection H as <- _. exact (grows_append table nd conn g g2 Ha).
Qed.

Lemma edge_loop_grows (reverse table : list string) (node_id : nat) (edges : list gv_edge)
  (g : dict (list string)) (node : string) (g' : dict (list string)) (node' : string) :
  edge_loop reverse table node_id edges (g, node) = Ok (g', node') -> grows table g g'.
Proof.
  revert g node. induction edges as [|c cs IH]; intros g node H; simpl in H.
  - injection H as <- _. apply grows_refl.
  - destruct (conn_step reverse table node_id (g, node) c) as [[g1 n1]|e] eqn:Hc;
      simpl in H; [|discriminate].
    exact (grows_trans table g g1 g' (conn_step_grows _ _ _ _ _ _ _ _ Hc) (IH g1 n1 H)).
Qed.

(** X11: the edge resolver of [tf_makegraph] never removes or reorders
    anything: the keys of the graph keep their order, the only new keys
    (raw endpoints added for a connection type of [REVERSE_ARROW_LIST]) are
    labels of the graphviz table and come after them, and every list of
    connections only grows at its end. *)
Theorem node_loop_grows (reverse table : list string) (edges : list gv_edge)
  (nodes : list string) (g g' : dict (list string)) :
  node_loop reverse table edges nodes g = Ok g' -> grows table g g'.
Proof.
  revert g. induction nodes as [|n ns IH]; intros g H; simpl in H.
  - injection H as <-. apply grows_refl.
  - destruct (resolve_node_id table n) as [nid|e]; simpl in H; [|discriminate].
    destruct (edge_loop reverse table nid edges (g, n)) as [[g1 n1]|e] eqn:He;
      simpl in H; [|discriminate].
    exact (grows_trans table g g1 g' (edge_loop_grows _ _ _ _ _ _ _ _ He) (IH g1 H)).
Qed.

Lemma node_loop_grows_witness :
  grows ["aws_lb.front"; "aws_instance.web"]
    [("aws_instance.web~1", []); ("aws_instance.web~2", []); ("aws_lb.front", [])]
    [("aws_instance.web~1", []); ("aws_instance.web~2", []); ("aws_lb.front", []);
     ("aws_instance.web", ["aws_lb.front"])].
Proof.
  apply (node_loop_grows ["aws_instance"] ["aws_lb.front"; "aws_instance.web"]
           [{| e_head := 0; e_tail := 1 |}]
           ["aws_instance.web~1"; "aws_instance.web~2"; "aws_lb.front"]).
  reflexivity.
Defined.
